(** * Analytics system: ingestion, persistence worker, reporting

    A shallow embedding of the three services of the repository:
    - [ingestion-service/server.js]  (POST /event),
    - [processor/worker.js]          (the BullMQ worker),
    - [reporting-service/server.js]  (GET /stats and GET /stats/aggregated),
    together with the parts of the JavaScript runtime, of mongoose and of the
    MongoDB aggregation engine that these handlers rely on. *)

From Stdlib Require Import ZArith List String Ascii Bool Lia Permutation Sorted.
From Stdlib Require Import DecimalString.
Import ListNotations.

Local Open Scope string_scope.
Local Open Scope list_scope.
Local Open Scope Z_scope.

(* ===================================================================== *)
(** ** JavaScript values and the runtime *)
(* ===================================================================== *)

Module JS.

(** The JSON scalars a request body or a job payload can carry in a field.
    [JUndefined] is an absent key.  [JNum n] is an integral JSON number; its
    string form is its decimal numeral (true of every integer below 10^21 in
    absolute value).  Arrays and nested objects are not modelled. *)
Inductive JSValue : Type :=
| JUndefined
| JNull
| JBool (b : bool)
| JNum (n : Z)
| JStr (s : string).

(** ToBoolean: what [!v] and [v || d] test. *)
Definition truthy (v : JSValue) : bool :=
  match v with
  | JUndefined | JNull => false
  | JBool b => b
  | JNum n => negb (n =? 0)
  | JStr s => negb (s =? "")%string
  end.

(** Number.prototype.toString for an integer. *)
Definition Number_toString (n : Z) : string :=
  NilZero.string_of_int (Z.to_int n).

(** Time values are milliseconds since the epoch; [None] is NaN, the time
    value of an Invalid Date. *)
Definition TimeValue := option Z.

Definition msPerDay : Z := 86400000.

Definition TimeClip (t : Z) : TimeValue :=
  if Z.abs t <=? 8640000000000000 then Some t else None.

(** What the handlers take from the host: [Date.parse] (implementation
    defined outside the ISO format) and the local time zone adjustment
    [LocalTZA t isUTC] of ECMAScript (the offset, in milliseconds, of local
    time from UTC at the UTC instant [t] when [isUTC], at the local time [t]
    otherwise). *)
Record Runtime : Type := {
  Date_parse : string -> TimeValue;
  LocalTZA : Z -> bool -> Z
}.

(** [new Date(v)]: a string is parsed, anything else goes through ToNumber. *)
Definition new_Date (rt : Runtime) (v : JSValue) : TimeValue :=
  match v with
  | JUndefined => None
  | JNull => TimeClip 0
  | JBool b => TimeClip (if b then 1 else 0)
  | JNum n => TimeClip n
  | JStr s => Date_parse rt s
  end.

(** [d.setDate(d.getDate() + 1)] on a valid date with time value [t]:
    LocalTime(t), one day later on the local calendar at the same local time
    of day (MakeDay of the same year and month with the day of the month plus
    one is Day + 1), and back through UTC(). *)
Definition setDate_next (rt : Runtime) (t : Z) : TimeValue :=
  let local := t + LocalTZA rt t true in
  let moved := local + msPerDay in
  TimeClip (moved - LocalTZA rt moved false).

(** *** The ECMAScript date-time string format

    A parser for the two shapes the documentation of the services uses,
    [YYYY-MM-DD] (UTC midnight) and [YYYY-MM-DDTHH:mm:ss(.sss)Z].  It is
    the [Date.parse] of the two sample hosts below, which take every other
    text for an invalid date. *)

Definition digit (c : ascii) : option Z :=
  let n := Z.of_nat (nat_of_ascii c) in
  if (48 <=? n) && (n <=? 57) then Some (n - 48) else None.

Fixpoint number (cs : list ascii) (acc : Z) : option Z :=
  match cs with
  | [] => Some acc
  | c :: cs' =>
      match digit c with
      | Some d => number cs' (10 * acc + d)
      | None => None
      end
  end.

Definition DayFromYear (y : Z) : Z :=
  365 * (y - 1970) + (y - 1969) / 4 - (y - 1901) / 100 + (y - 1601) / 400.

Definition InLeapYear (y : Z) : bool :=
  ((y mod 4 =? 0) && negb (y mod 100 =? 0)) || (y mod 400 =? 0).

Definition DaysInMonth (y m : Z) : Z :=
  if m =? 2 then (if InLeapYear y then 29 else 28)
  else if (m =? 4) || (m =? 6) || (m =? 9) || (m =? 11) then 30 else 31.

(** Days before the first of month [m] (1-based) in year [y]. *)
Fixpoint days_before (y : Z) (m : nat) : Z :=
  match m with
  | O => 0
  | S k => match k with
           | O => 0
           | _ => days_before y k + DaysInMonth y (Z.of_nat k)
           end
  end.

Definition MakeDay (y m d : Z) : Z :=
  DayFromYear y + days_before y (Z.to_nat m) + (d - 1).

Definition MakeTime (h mi s ms : Z) : Z :=
  h * 3600000 + mi * 60000 + s * 1000 + ms.

Definition MakeDate (day time : Z) : Z := day * msPerDay + time.

Definition parse_date (cs : list ascii) : option Z :=
  match cs with
  | [y1; y2; y3; y4; d1; m1; m2; d2; a1; a2] =>
      if (d1 =? "-")%char && (d2 =? "-")%char then
        match number [y1; y2; y3; y4] 0, number [m1; m2] 0, number [a1; a2] 0 with
        | Some y, Some m, Some d =>
            if (1 <=? m) && (m <=? 12) && (1 <=? d) && (d <=? DaysInMonth y m)
            then Some (MakeDay y m d) else None
        | _, _, _ => None
        end
      else None
  | _ => None
  end.

Definition parse_time (cs : list ascii) : option Z :=
  match cs with
  | [h1; h2; c1; m1; m2; c2; s1; s2] =>
      if (c1 =? ":")%char && (c2 =? ":")%char then
        match number [h1; h2] 0, number [m1; m2] 0, number [s1; s2] 0 with
        | Some h, Some mi, Some s =>
            if (h <=? 23) && (mi <=? 59) && (s <=? 59)
            then Some (MakeTime h mi s 0) else None
        | _, _, _ => None
        end
      else None
  | _ => None
  end.

Definition parse_millis (cs : list ascii) : option Z :=
  match cs with
  | [] => Some 0
  | [dot; f1; f2; f3] =>
      if (dot =? ".")%char then number [f1; f2; f3] 0 else None
  | _ => None
  end.

Definition iso_parse (s : string) : TimeValue :=
  let cs := list_ascii_of_string s in
  match parse_date (firstn 10 cs) with
  | None => None
  | Some day =>
      match skipn 10 cs with
      | [] => TimeClip (MakeDate day 0)
      | t :: rest =>
          if (t =? "T")%char then
            match rev rest with
            | z :: tser =>
                let body := rev tser in
                if (z =? "Z")%char then
                  match parse_time (firstn 8 body), parse_millis (skipn 8 body) with
                  | Some tm, Some ms => TimeClip (MakeDate day (tm + ms))
                  | _, _ => None
                  end
                else None
            | [] => None
            end
          else None
      end
  end.

(** A host whose clock is UTC. *)
Definition utc : Runtime :=
  {| Date_parse := iso_parse; LocalTZA := fun _ _ => 0 |}.

(** A host on New York time around the end of daylight saving time in 2025:
    UTC-4 before 2025-11-02T06:00:00Z, UTC-5 from then on.  A local time that
    occurs twice is read with the offset before the transition. *)
Definition ny_transition : Z := 1762063200000.

Definition new_york : Runtime :=
  {| Date_parse := iso_parse;
     LocalTZA := fun t isUTC =>
       let edt := -4 * 3600000 in
       let est := -5 * 3600000 in
       if isUTC
       then (if t <? ny_transition then edt else est)
       else (if t <? ny_transition + edt then edt else est) |}.

End JS.

Import JS.

(* ===================================================================== *)
(** ** The Event collection *)
(* ===================================================================== *)

(** A persisted Event ([eventSchema]).  [path] and [user_id] are optional:
    [None] stands for a field that is absent or null in the document.  The
    store-assigned [_id], [createdAt] and [updatedAt] play no part in the
    handlers and are left out. *)
Record Event : Type := {
  site_id : string;
  event_type : string;
  path : option string;
  user_id : option string;
  timestamp : Z
}.

(** The collection, in the order in which a query returns its documents. *)
Definition Collection := list Event.

(** The filter [{ site_id, timestamp: { $gte: startDate, $lt: endDate } }],
    shared by [Event.find] and by the [$match] stage. *)
Definition in_range (site : string) (startDate endDate : Z) (e : Event) : bool :=
  (site_id e =? site)%string && (startDate <=? timestamp e) && (timestamp e <? endDate).

Definition Event_find (site : string) (startDate endDate : Z) (db : Collection) : list Event :=
  filter (in_range site startDate endDate) db.

(** The value of [views] in a reply: a number, or (when a path names a
    property that a plain object inherits) a piece of text. *)
Inductive Views : Type :=
| VNum (n : Z)
| VText (s : string).

(** One element of [top_paths]; [pv_path = None] is [path: null]. *)
Record PathViews : Type := {
  pv_path : option string;
  pv_views : Views
}.

Record StatsResult : Type := {
  res_site_id : string;
  res_date : string;
  total_views : Z;
  unique_users : Z;
  top_paths : list PathViews
}.

(** What a reporting handler answers.  [StatsInvalidDate] is the case where
    [new Date(date)] (or the end of the window) is an Invalid Date: what
    mongoose and the driver make of such a bound is outside this repository. *)
Inductive StatsReply : Type :=
| Stats200 (r : StatsResult)
| Stats400 (message : string)
| StatsInvalidDate.

Definition missing_parameters : string :=
  "Missing required parameters: site_id, date (YYYY-MM-DD)".

(** A query-string parameter ([req.query.site_id], [req.query.date]), read
    as one string, is falsy when absent or empty. *)
Definition given (p : option string) : option string :=
  match p with
  | Some s => if (s =? "")%string then None else Some s
  | None => None
  end.

(** The window of both handlers: [startDate = new Date(date)], [endDate] the
    same date moved by [setDate(getDate() + 1)]. *)
Definition window (rt : Runtime) (date : string) : option (Z * Z) :=
  match Date_parse rt date with
  | None => None
  | Some startDate =>
      match setDate_next rt startDate with
      | None => None
      | Some endDate => Some (startDate, endDate)
      end
  end.

(** Values in the order of their first occurrence, each once: the content
    of a [Set] built from an array, and the keys of a grouping. *)
Definition opt_eqb (a b : option string) : bool :=
  match a, b with
  | Some x, Some y => (x =? y)%string
  | None, None => true
  | _, _ => false
  end.

Definition seen (s : list (option string)) (x : option string) : bool :=
  existsb (opt_eqb x) s.

Definition add_distinct (s : list (option string)) (x : option string) : list (option string) :=
  if seen s x then s else s ++ [x].

Definition distinct (l : list (option string)) : list (option string) :=
  fold_left add_distinct l [].

(* ===================================================================== *)
(** ** GET /stats: the scan strategy *)
(* ===================================================================== *)

Module Scan.

(** *** [new Set(...)]: insertion ordered, no duplicates *)

Definition new_Set (l : list (option string)) : list (option string) :=
  distinct l.

(** [Boolean] as the filter of [events.map(e => e.user_id)], and the test
    [if (event.path)]. *)
Definition Boolean (v : option string) : bool :=
  match v with
  | Some s => negb (s =? "")%string
  | None => false
  end.

(** *** [pathCounts]: a plain object used as a counter table *)

(** Own properties, in creation order. *)
Definition JSObject := list (string * Views).

Definition Object_prototype_keys : list string :=
  [ "constructor"; "__defineGetter__"; "__defineSetter__"; "hasOwnProperty";
    "__lookupGetter__"; "__lookupSetter__"; "isPrototypeOf";
    "propertyIsEnumerable"; "toString"; "valueOf"; "__proto__";
    "toLocaleString" ]%string.

(** A key that [{}] answers from [Object.prototype]. *)
Definition inherited (k : string) : bool :=
  existsb (String.eqb k) Object_prototype_keys.

(** The text a built-in found under such a key turns into under [+]. *)
Definition native_text (k : string) : string :=
  if (k =? "__proto__")%string then "[object Object]"%string
  else if (k =? "constructor")%string then "function Object() { [native code] }"%string
  else String.append "function " (String.append k "() { [native code] }").

Fixpoint own_get (o : JSObject) (k : string) : option Views :=
  match o with
  | [] => None
  | (k', v) :: o' => if (k' =? k)%string then Some v else own_get o' k
  end.

(** [(pathCounts[k] || 0) + 1]. *)
Definition next_count (o : JSObject) (k : string) : Views :=
  match own_get o k with
  | Some (VNum n) => VNum (n + 1)
  | Some (VText s) => if (s =? "")%string then VNum 1 else VText (String.append s "1")
  | None => if inherited k then VText (String.append (native_text k) "1") else VNum 1
  end.

Fixpoint own_set (o : JSObject) (k : string) (v : Views) : JSObject :=
  match o with
  | [] => [(k, v)]
  | (k', v') :: o' =>
      if (k' =? k)%string then (k', v) :: o' else (k', v') :: own_set o' k v
  end.

(** [pathCounts[k] = v]: the [__proto__] setter ignores a primitive, any
    other key becomes (or stays) an own property. *)
Definition Object_set (o : JSObject) (k : string) (v : Views) : JSObject :=
  if (k =? "__proto__")%string then o else own_set o k v.

(** The body of [events.forEach]. *)
Definition count_path (pathCounts : JSObject) (event : Event) : JSObject :=
  match path event with
  | Some p =>
      if Boolean (Some p)
      then Object_set pathCounts p (next_count pathCounts p)
      else pathCounts
  | None => pathCounts
  end.

(** *** [Object.entries]: array indices first, ascending; then the other
    keys in creation order *)

Definition canonical_digits (cs : list ascii) : bool :=
  match cs with
  | [] => false
  | [c] => match digit c with Some _ => true | None => false end
  | c :: _ =>
      match digit c with
      | Some d => negb (d =? 0) && forallb (fun x => match digit x with Some _ => true | None => false end) cs
      | None => false
      end
  end.

Definition array_index (k : string) : option Z :=
  let cs := list_ascii_of_string k in
  if canonical_digits cs then
    match number cs 0 with
    | Some n => if n <=? 4294967294 then Some n else None
    | None => None
    end
  else None.

Definition is_index (kv : string * Views) : bool :=
  match array_index (fst kv) with Some _ => true | None => false end.

Definition index_of (kv : string * Views) : Z :=
  match array_index (fst kv) with Some n => n | None => 0 end.

Fixpoint insert_index (x : string * Views) (l : list (string * Views)) : list (string * Views) :=
  match l with
  | [] => [x]
  | y :: l' => if index_of x <? index_of y then x :: l else y :: insert_index x l'
  end.

Definition Object_entries (o : JSObject) : list (string * Views) :=
  fold_right insert_index [] (filter is_index o)
  ++ filter (fun kv => negb (is_index kv)) o.

(** *** [Array.prototype.sort] and the comparator *)

Definition ToNumber (v : Views) : option Z :=
  match v with
  | VNum n => Some n
  | VText _ => None
  end.

(** [(a, b) => b.views - a.views]; a NaN result counts as [+0]. *)
Definition by_views (a b : PathViews) : Z :=
  match ToNumber (pv_views b), ToNumber (pv_views a) with
  | Some vb, Some va => vb - va
  | _, _ => 0
  end.

(** A stable sort: [x], which precedes every element of [l] in the array,
    moves behind exactly the elements the comparator puts strictly first.
    With numbers for [views] the comparator is consistent and this is the
    arrangement every stable sort gives; once a [views] is text the
    comparator is not consistent any more and the arrangement is the
    engine's own, which the statements below leave aside. *)
Fixpoint insert_by (cmp : PathViews -> PathViews -> Z) (x : PathViews) (l : list PathViews) : list PathViews :=
  match l with
  | [] => [x]
  | y :: l' => if 0 <? cmp x y then y :: insert_by cmp x l' else x :: l
  end.

Definition Array_sort (cmp : PathViews -> PathViews -> Z) (l : list PathViews) : list PathViews :=
  fold_right (insert_by cmp) [] l.

Definition slice_10 (l : list PathViews) : list PathViews := firstn 10 l.

Definition entry (kv : string * Views) : PathViews :=
  {| pv_path := Some (fst kv); pv_views := snd kv |}.

(** *** The handler *)

Definition unique_users_of (events : list Event) : Z :=
  Z.of_nat (List.length (new_Set (filter Boolean (map user_id events)))).

Definition pathCounts_of (events : list Event) : JSObject :=
  fold_left count_path events [].

Definition top_paths_of (events : list Event) : list PathViews :=
  slice_10 (Array_sort by_views (map entry (Object_entries (pathCounts_of events)))).

Definition stats (rt : Runtime) (db : Collection) (q_site_id q_date : option string) : StatsReply :=
  match given q_site_id, given q_date with
  | Some site, Some date =>
      match window rt date with
      | None => StatsInvalidDate
      | Some (startDate, endDate) =>
          let events := Event_find site startDate endDate db in
          Stats200 {| res_site_id := site;
                      res_date := date;
                      total_views := Z.of_nat (List.length events);
                      unique_users := unique_users_of events;
                      top_paths := top_paths_of events |}
      end
  | _, _ => Stats400 missing_parameters
  end.

End Scan.

(* ===================================================================== *)
(** ** GET /stats/aggregated: the engine-native strategy *)
(* ===================================================================== *)

Module Aggregate.

(** What the pipeline leaves to the database engine: the order in which
    [$group] emits its groups, and the arrangement [$sort: { views: -1 }]
    gives to documents with equal [views]. *)
Record Engine : Type := {
  emit : list (option string) -> list (option string);
  sort_views : list (option string * Z) -> list (option string * Z)
}.

Definition views_desc (a b : option string * Z) : Prop := snd b <= snd a.

(** An engine emits every group once and sorts as asked. *)
Record Lawful (E : Engine) : Prop := {
  emit_perm : forall ks, Permutation ks (emit E ks);
  sort_perm : forall l, Permutation l (sort_views E l);
  sort_desc : forall l, StronglySorted views_desc (sort_views E l)
}.

(** [{ $group: { _id: key } }]: one document per distinct value of the key;
    an absent or null field groups under [_id: null]. *)
Definition group_ids (E : Engine) (key : Event -> option string) (docs : list Event) : list (option string) :=
  emit E (distinct (map key docs)).

(** [{ $sum: 1 }] of the group [id]. *)
Definition sum_1 (key : Event -> option string) (id : option string) (docs : list Event) : Z :=
  Z.of_nat (List.length (filter (fun d => opt_eqb (key d) id) docs)).

(** [{ $group: { _id: '$path', views: { $sum: 1 } } }]. *)
Definition group_views (E : Engine) (docs : list Event) : list (option string * Z) :=
  map (fun id => (id, sum_1 path id docs)) (group_ids E path docs).

(** [{ $count: field }]: one document holding the number of input
    documents, and no document at all when there is no input. *)
Definition count_stage {A : Type} (docs : list A) : list Z :=
  match docs with
  | [] => []
  | _ :: _ => [Z.of_nat (List.length docs)]
  end.

Definition limit_10 {A : Type} (docs : list A) : list A := firstn 10 docs.

(** [{ $project: { path: '$_id', views: 1, _id: 0 } }]. *)
Definition project (g : option string * Z) : PathViews :=
  {| pv_path := fst g; pv_views := VNum (snd g) |}.

(** The single document [$facet] produces. *)
Record Facets : Type := {
  total : list Z;
  facet_unique_users : list Z;
  facet_top_paths : list PathViews
}.

Definition Event_aggregate (E : Engine) (site : string) (startDate endDate : Z) (db : Collection) : list Facets :=
  let matched := filter (in_range site startDate endDate) db in
  [ {| total := count_stage matched;
       facet_unique_users := count_stage (group_ids E user_id matched);
       facet_top_paths := map project (limit_10 (sort_views E (group_views E matched))) |} ].

(** [n || 0] on a number. *)
Definition or_0 (n : option Z) : Z :=
  match n with
  | Some v => if v =? 0 then 0 else v
  | None => 0
  end.

(** [stats[0]?.facet[0]?.field]. *)
Definition first_of (facet : Facets -> list Z) (stats : list Facets) : option Z :=
  match stats with
  | [] => None
  | f :: _ => hd_error (facet f)
  end.

Definition stats (E : Engine) (rt : Runtime) (db : Collection) (q_site_id q_date : option string) : StatsReply :=
  match given q_site_id, given q_date with
  | Some site, Some date =>
      match window rt date with
      | None => StatsInvalidDate
      | Some (startDate, endDate) =>
          let stats := Event_aggregate E site startDate endDate db in
          Stats200 {| res_site_id := site;
                      res_date := date;
                      total_views := or_0 (first_of total stats);
                      unique_users := or_0 (first_of facet_unique_users stats);
                      top_paths := match stats with
                                   | f :: _ => facet_top_paths f
                                   | [] => []
                                   end |}
      end
  | _, _ => Stats400 missing_parameters
  end.

(** An engine that emits groups in the order of their first document and
    sorts stably. *)
Fixpoint insert_desc (x : option string * Z) (l : list (option string * Z)) : list (option string * Z) :=
  match l with
  | [] => [x]
  | y :: l' => if snd x <? snd y then y :: insert_desc x l' else x :: l
  end.

Definition first_seen : Engine :=
  {| emit := fun ks => ks;
     sort_views := fun l => fold_right insert_desc [] l |}.

(** An engine that emits groups last to first. *)
Definition last_seen : Engine :=
  {| emit := fun ks => rev ks;
     sort_views := fun l => fold_right insert_desc [] l |}.

End Aggregate.

(* ===================================================================== *)
(** ** POST /event: the ingestion service *)
(* ===================================================================== *)

Module Ingestion.

(** [req.body], and the payload of a job: the five fields the handler
    destructures. *)
Record Body : Type := {
  body_site_id : JSValue;
  body_event_type : JSValue;
  body_path : JSValue;
  body_user_id : JSValue;
  body_timestamp : JSValue
}.

Record Job : Type := {
  job_name : string;
  job_data : Body
}.

(** The [analytics-events] queue: whether a submission goes through, the
    jobs submitted so far, and how many times [add] has been called. *)
Record Queue : Type := {
  reachable : bool;
  jobs : list Job;
  add_calls : nat
}.

(** [eventQueue.add(name, data)]; [false] is a rejected promise. *)
Definition Queue_add (q : Queue) (name : string) (data : Body) : bool * Queue :=
  if reachable q
  then (true, {| reachable := true;
                 jobs := jobs q ++ [ {| job_name := name; job_data := data |} ];
                 add_calls := S (add_calls q) |})
  else (false, {| reachable := false; jobs := jobs q; add_calls := S (add_calls q) |}).

(** A reply: the HTTP status and the JSON body [{ status, message }]. *)
Record Reply : Type := {
  code : Z;
  status : string;
  message : option string
}.

Definition rejected : Reply :=
  {| code := 400; status := "error";
     message := Some "Missing required fields: site_id, event_type, timestamp"%string |}.

Definition accepted : Reply :=
  {| code := 200; status := "accepted"; message := None |}.

Definition failed : Reply :=
  {| code := 500; status := "error"; message := Some "Failed to accept event"%string |}.

Definition post_event (body : Body) (q : Queue) : Reply * Queue :=
  if negb (truthy (body_site_id body))
     || negb (truthy (body_event_type body))
     || negb (truthy (body_timestamp body))
  then (rejected, q)
  else
    let (added, q') := Queue_add q "process-event" body in
    if added then (accepted, q') else (failed, q').

End Ingestion.

(* ===================================================================== *)
(** ** The persistence worker *)
(* ===================================================================== *)

Module Worker.

Import Ingestion.

(** How a job ends: the processor returned [{ success: true }], or it threw
    and the job is failed. *)
Inductive Outcome : Type :=
| Completed
| Failed.

(** mongoose's cast of a scalar to the [String] schema type: null and
    undefined stay as they are ([None]), other scalars go through
    [toString]. *)
Definition cast_String (v : JSValue) : option string :=
  match v with
  | JUndefined | JNull => None
  | JBool b => Some (if b then "true" else "false")%string
  | JNum n => Some (Number_toString n)
  | JStr s => Some s
  end.

(** [new Event({ ... })]: the document before validation.  [doc_timestamp]
    is the time value of [new Date(timestamp)]. *)
Record Document : Type := {
  doc_site_id : option string;
  doc_event_type : option string;
  doc_path : option string;
  doc_user_id : option string;
  doc_timestamp : TimeValue
}.

Definition new_Event (rt : Runtime) (data : Body) : Document :=
  {| doc_site_id := cast_String (body_site_id data);
     doc_event_type := cast_String (body_event_type data);
     doc_path := cast_String (body_path data);
     doc_user_id := cast_String (body_user_id data);
     doc_timestamp := new_Date rt (body_timestamp data) |}.

(** [required: true] on a [String] path: a non-empty string. *)
Definition required_String (v : option string) : option string :=
  match v with
  | Some s => if (s =? "")%string then None else Some s
  | None => None
  end.

(** The validation [save()] runs first: the required paths of
    [eventSchema], and a [Date] path that does not hold an Invalid Date. *)
Definition validate (doc : Document) : option Event :=
  match required_String (doc_site_id doc),
        required_String (doc_event_type doc),
        doc_timestamp doc with
  | Some site, Some type, Some t =>
      Some {| site_id := site; event_type := type; path := doc_path doc;
              user_id := doc_user_id doc; timestamp := t |}
  | _, _, _ => None
  end.

(** [event.save()]: [None] is a rejected promise (validation failed, or
    the database did not take the write). *)
Definition Event_save (db_up : bool) (doc : Document) (db : Collection) : option Collection :=
  match validate doc with
  | Some e => if db_up then Some (db ++ [e]) else None
  | None => None
  end.

(** The processor function of the worker. *)
Definition process (rt : Runtime) (db_up : bool) (job : Job) (db : Collection) : Outcome * Collection :=
  let event := new_Event rt (job_data job) in
  match Event_save db_up event db with
  | Some db' => (Completed, db')
  | None => (Failed, db)
  end.

End Worker.

(* ===================================================================== *)
(** ** Notions used in the statements *)
(* ===================================================================== *)

(** An event belongs to the site and to the window [[lo, hi)]. *)
Definition in_day (site : string) (lo hi : Z) (e : Event) : Prop :=
  site_id e = site /\ lo <= timestamp e /\ timestamp e < hi.

Definition in_day_dec (site : string) (lo hi : Z) (e : Event) :
  {in_day site lo hi e} + {~ in_day site lo hi e}.
Proof.
  unfold in_day.
  destruct (string_dec (site_id e) site) as [Hs | Hs];
    destruct (Z_le_dec lo (timestamp e)) as [Hl | Hl];
    destruct (Z_lt_dec (timestamp e) hi) as [Hh | Hh];
    solve [ left; auto | right; intros (? & ? & ?); contradiction ].
Defined.

(** The number of events of the collection that belong to the day. *)
Fixpoint matching_count (site : string) (lo hi : Z) (db : Collection) : nat :=
  match db with
  | [] => O
  | e :: db' =>
      if in_day_dec site lo hi e
      then S (matching_count site lo hi db')
      else matching_count site lo hi db'
  end.

(** A required field of a body counts as missing when the handler's test
    [!field] holds of it. *)
Definition missing_fields (body : Ingestion.Body) : list string :=
  (if truthy (Ingestion.body_site_id body) then [] else ["site_id"%string])
  ++ (if truthy (Ingestion.body_event_type body) then [] else ["event_type"%string])
  ++ (if truthy (Ingestion.body_timestamp body) then [] else ["timestamp"%string]).

(** [needle] occurs in [hay]. *)
Fixpoint occurs (needle hay : string) : bool :=
  String.prefix needle hay
  || match hay with
     | EmptyString => false
     | String _ rest => occurs needle rest
     end.

Definition mentions (m : option string) (field : string) : bool :=
  match m with
  | Some text => occurs field text
  | None => false
  end.


(** The host keeps one offset from UTC. *)
Definition fixed_offset (rt : Runtime) : Prop :=
  exists off, forall t isUTC, LocalTZA rt t isUTC = off.

(** No event carries a path that a plain object answers from
    [Object.prototype]. *)
Definition plain_paths (events : list Event) : Prop :=
  forallb (fun e => match path e with
                    | Some p => negb (Scan.inherited p)
                    | None => true
                    end) events = true.

(** Among [events], an event with path [p] comes before any event with
    path [q]. *)
Definition seen_before (events : list Event) (p q : string) : Prop :=
  exists pre e post,
    events = pre ++ e :: post /\ path e = Some p /\
    ~ In (Some q) (map path (pre ++ [e])).

(** The order in which a plain object lists its own keys: array indices in
    ascending order, then the other keys as they were created. *)
Definition own_key_order (events : list Event) (p q : string) : Prop :=
  match Scan.array_index p, Scan.array_index q with
  | Some m, Some n => m <= n
  | Some _, None => True
  | None, Some _ => False
  | None, None => seen_before events p q
  end.

(** [a] may stand before [b]: both hold a number of views, and [a] holds
    more, or as many and [tie] allows it. *)
Definition by_rank (tie : PathViews -> PathViews -> Prop) (a b : PathViews) : Prop :=
  exists m n, pv_views a = VNum m /\ pv_views b = VNum n /\
              (n < m \/ (n = m /\ tie a b)).

Definition key_tie (events : list Event) (a b : PathViews) : Prop :=
  exists p q, pv_path a = Some p /\ pv_path b = Some q /\ own_key_order events p q.

Definition any_tie (a b : PathViews) : Prop := True.

Definition numeric (a : PathViews) : Prop := exists n, pv_views a = VNum n.

(** Every event carries a non-empty [user_id]. *)
Definition all_users (events : list Event) : Prop :=
  forallb (fun e => Scan.Boolean (user_id e)) events = true.

(** Every event carries a non-empty [path] that is neither an array index
    nor the name of a property inherited from [Object.prototype]. *)
Definition ordinary_path (e : Event) : bool :=
  match path e with
  | Some p =>
      negb (p =? "")%string && negb (Scan.inherited p)
      && match Scan.array_index p with Some _ => false | None => true end
  | None => false
  end.

Definition ordinary_paths (events : list Event) : Prop :=
  forallb ordinary_path events = true.

(** The property [pathCounts] holds for the group [id] of [docs]. *)
Definition row (docs : list Event) (id : option string) : string * Views :=
  (match id with Some p => p | None => ""%string end,
   VNum (Aggregate.sum_1 path id docs)).

(** What holds of [pathCounts] once the events [pre] have gone through the
    loop: it holds numbers, its keys are the non-empty paths of [pre], and
    they stand in the order in which [pre] brought them. *)
Record counted (pre : list Event) (o : Scan.JSObject) : Prop := {
  counted_numbers : Forall (fun kv => exists n, snd kv = VNum n) o;
  counted_keys : forall p, In p (map fst o) <-> In (Some p) (map path pre) /\ p <> ""%string;
  counted_order : StronglySorted (fun a b => seen_before pre (fst a) (fst b)) o
}.

(** The number of [events] whose path is [p] ([None]: no path). *)
Definition path_views (events : list Event) (p : option string) : Z :=
  Z.of_nat (List.length (filter (fun e => opt_eqb (path e) p) events)).

(** A path that GET /stats can list: not empty, and not [__proto__]. *)
Definition listable (p : option string) : Prop :=
  exists s, p = Some s /\ s <> ""%string /\ s <> "__proto__"%string.

(** The job POST /event submits for a body. *)
Definition job_of (body : Ingestion.Body) : Ingestion.Job :=
  {| Ingestion.job_name := "process-event"; Ingestion.job_data := body |}.

(** The handler's test of a body, as a boolean. *)
Definition complete_body (body : Ingestion.Body) : bool :=
  truthy (Ingestion.body_site_id body)
  && truthy (Ingestion.body_event_type body)
  && truthy (Ingestion.body_timestamp body).

(** The queue after a series of requests, in the order of their arrival. *)
Definition post_all (bodies : list Ingestion.Body) (q : Ingestion.Queue) : Ingestion.Queue :=
  fold_left (fun q body => snd (Ingestion.post_event body q)) bodies q.

(** The collection after a series of job executions, each with the state
    of the database (up or not) at that time. *)
Definition process_all (rt : Runtime) (runs : list (bool * Ingestion.Job))
  (db : Collection) : Collection :=
  fold_left (fun db run => snd (Worker.process rt (fst run) (snd run) db)) runs db.

(** Every event holds a non-empty [site_id] and [event_type]. *)
Definition well_formed (db : Collection) : Prop :=
  Forall (fun e => site_id e <> ""%string /\ event_type e <> ""%string) db.

(** The views a list of entries adds up to (a text counts for nothing). *)
Definition views_total (l : list PathViews) : Z :=
  fold_right (fun pv acc => match pv_views pv with
                            | VNum n => n + acc
                            | VText _ => acc
                            end) 0 l.

(** Under an inherited name, [pathCounts] holds nothing or a text. *)
Definition text_or_nothing (o : Scan.JSObject) (p : string) : Prop :=
  Scan.own_get o p = None \/
  exists s, Scan.own_get o p = Some (VText s) /\ s <> ""%string.

(** The text a field of a body holds, when it holds one. *)
Definition text_of (v : JSValue) : option string :=
  match v with
  | JStr s => Some s
  | _ => None
  end.

(** A field of a body that holds a text, null, or nothing. *)
Definition optional_text (v : JSValue) : Prop :=
  v = JUndefined \/ v = JNull \/ exists s, v = JStr s.


(** Every event carries a non-empty [path] that is not the name of a
    property inherited from [Object.prototype]. *)
Definition named_path (e : Event) : bool :=
  match path e with
  | Some p => negb (p =? "")%string && negb (Scan.inherited p)
  | None => false
  end.

Definition named_paths (events : list Event) : Prop :=
  forallb named_path events = true.

(* ===================================================================== *)
(** ** Sample data *)
(* ===================================================================== *)

(** The four page views of the README, on 2025-11-15. *)
Definition page_view (p u : option string) (t : Z) : Event :=
  {| site_id := "site-abc-123"; event_type := "page_view";
     path := p; user_id := u; timestamp := t |}.

Definition readme_events : Collection :=
  [ page_view (Some "/pricing") (Some "user-1") 1763200800000;
    page_view (Some "/blog/post-1") (Some "user-2") 1763201100000;
    page_view (Some "/") (Some "user-3") 1763201400000;
    page_view (Some "/pricing") (Some "user-1") 1763201700000 ]%string.

Definition readme_result : StatsResult :=
  {| res_site_id := "site-abc-123"; res_date := "2025-11-15";
     total_views := 4; unique_users := 3;
     top_paths :=
       [ {| pv_path := Some "/pricing"; pv_views := VNum 2 |};
         {| pv_path := Some "/blog/post-1"; pv_views := VNum 1 |};
         {| pv_path := Some "/"; pv_views := VNum 1 |} ] |}%string.

(** A body without [event_type], and a queue that is up and empty. *)
Definition no_event_type : Ingestion.Body :=
  {| Ingestion.body_site_id := JStr "site-abc-123";
     Ingestion.body_event_type := JUndefined;
     Ingestion.body_path := JStr "/pricing";
     Ingestion.body_user_id := JStr "user-1";
     Ingestion.body_timestamp := JStr "2025-11-15T10:00:00Z" |}.

Definition idle_queue (up : bool) : Ingestion.Queue :=
  {| Ingestion.reachable := up; Ingestion.jobs := []; Ingestion.add_calls := O |}.

(** A complete body with the given [timestamp]. *)
Definition page_view_body (ts : JSValue) : Ingestion.Body :=
  {| Ingestion.body_site_id := JStr "site-abc-123";
     Ingestion.body_event_type := JStr "page_view";
     Ingestion.body_path := JStr "/pricing";
     Ingestion.body_user_id := JStr "user-1";
     Ingestion.body_timestamp := ts |}.

(** Two page views, the first of "/about" and the second of "404". *)
Definition about_then_404 : Collection :=
  [ page_view (Some "/about") (Some "user-1") 1763200800000;
    page_view (Some "404") (Some "user-2") 1763201100000 ].

(* ===================================================================== *)
(** ** Basic facts *)
(* ===================================================================== *)

Lemma opt_eqb_eq (a b : option string) : opt_eqb a b = true <-> a = b.
Proof.
  destruct a as [x |], b as [y |]; simpl; try (split; [discriminate | congruence]).
  - rewrite String.eqb_eq. split; congruence.
  - tauto.
Qed.

Lemma seen_In (s : list (option string)) (x : option string) :
  seen s x = true <-> In x s.
Proof.
  unfold seen. rewrite existsb_exists. split.
  - intros (y & Hy & He). apply opt_eqb_eq in He. now subst.
  - intros H. exists x. split; [assumption | now apply opt_eqb_eq].
Qed.

Lemma in_range_in_day (site : string) (lo hi : Z) (e : Event) :
  in_range site lo hi e = true <-> in_day site lo hi e.
Proof.
  unfold in_range, in_day.
  rewrite !andb_true_iff, String.eqb_eq, Z.leb_le, Z.ltb_lt. tauto.
Qed.

Lemma Event_find_count (site : string) (lo hi : Z) (db : Collection) :
  List.length (Event_find site lo hi db) = matching_count site lo hi db.
Proof.
  unfold Event_find.
  induction db as [| e db IH]; simpl; [reflexivity |].
  destruct (in_day_dec site lo hi e) as [Hin | Hout].
  - apply in_range_in_day in Hin. rewrite Hin. simpl. now rewrite IH.
  - destruct (in_range site lo hi e) eqn:Hr; [| exact IH].
    apply in_range_in_day in Hr. contradiction.
Qed.

(** *** [distinct] *)

Lemma add_distinct_length (s : list (option string)) (x : option string) :
  (List.length (add_distinct s x) <= S (List.length s))%nat.
Proof.
  unfold add_distinct. destruct (seen s x); [lia |].
  rewrite length_app. simpl. lia.
Qed.

Lemma fold_distinct_length (l s : list (option string)) :
  (List.length (fold_left add_distinct l s) <= List.length s + List.length l)%nat.
Proof.
  revert s. induction l as [| x l IH]; intros s; simpl; [lia |].
  specialize (IH (add_distinct s x)).
  pose proof (add_distinct_length s x). lia.
Qed.

Lemma distinct_length (l : list (option string)) :
  (List.length (distinct l) <= List.length l)%nat.
Proof. unfold distinct. apply (fold_distinct_length l []). Qed.

Lemma fold_distinct_In (l s : list (option string)) (x : option string) :
  In x (fold_left add_distinct l s) <-> In x s \/ In x l.
Proof.
  revert s. induction l as [| y l IH]; intros s; simpl; [tauto |].
  rewrite IH. unfold add_distinct.
  destruct (seen s y) eqn:Hs.
  - apply seen_In in Hs. split; [tauto |].
    intros [H | [H | H]]; subst; tauto.
  - rewrite in_app_iff. simpl. tauto.
Qed.

Lemma distinct_In (l : list (option string)) (x : option string) :
  In x (distinct l) <-> In x l.
Proof. unfold distinct. rewrite fold_distinct_In. simpl. tauto. Qed.

Lemma fold_distinct_NoDup (l s : list (option string)) :
  NoDup s -> NoDup (fold_left add_distinct l s).
Proof.
  revert s. induction l as [| y l IH]; intros s Hs; simpl; [assumption |].
  apply IH. unfold add_distinct.
  destruct (seen s y) eqn:Hy; [assumption |].
  apply NoDup_app; [assumption | repeat constructor; intros [] |].
  intros a Ha [Hb | []]. subst.
  apply seen_In in Ha. congruence.
Qed.

Lemma distinct_NoDup (l : list (option string)) : NoDup (distinct l).
Proof. apply fold_distinct_NoDup. constructor. Qed.

(** *** The stages of the pipeline *)

Lemma count_or_0 {A : Type} (docs : list A) :
  Aggregate.or_0 (hd_error (Aggregate.count_stage docs)) = Z.of_nat (List.length docs).
Proof.
  destruct docs as [| d docs]; [reflexivity |].
  unfold Aggregate.count_stage, hd_error, Aggregate.or_0.
  destruct (Z.of_nat (List.length (d :: docs)) =? 0) eqn:H; [| reflexivity].
  apply Z.eqb_eq in H. now rewrite H.
Qed.

Lemma group_ids_length (E : Aggregate.Engine) (HE : Aggregate.Lawful E)
  (key : Event -> option string) (docs : list Event) :
  (List.length (Aggregate.group_ids E key docs) <= List.length docs)%nat.
Proof.
  unfold Aggregate.group_ids.
  rewrite <- (Permutation_length (Aggregate.emit_perm E HE _)).
  pose proof (distinct_length (map key docs)) as H.
  now rewrite length_map in H.
Qed.

Lemma scan_unique_le (events : list Event) :
  0 <= Scan.unique_users_of events <= Z.of_nat (List.length events).
Proof.
  unfold Scan.unique_users_of, Scan.new_Set. split; [lia |].
  apply Nat2Z.inj_le.
  etransitivity; [apply distinct_length |].
  etransitivity; [apply filter_length_le |].
  now rewrite length_map.
Qed.

(** Both handlers answer alike up to the statistics themselves. *)
Lemma scan_reply (rt : Runtime) (db : Collection) (q_site q_date : option string) (r : StatsResult) :
  Scan.stats rt db q_site q_date = Stats200 r ->
  exists site date lo hi,
    given q_site = Some site /\ given q_date = Some date /\
    window rt date = Some (lo, hi) /\
    r = {| res_site_id := site; res_date := date;
           total_views := Z.of_nat (List.length (Event_find site lo hi db));
           unique_users := Scan.unique_users_of (Event_find site lo hi db);
           top_paths := Scan.top_paths_of (Event_find site lo hi db) |}.
Proof.
  unfold Scan.stats.
  destruct (given q_site) as [site |]; [| discriminate].
  destruct (given q_date) as [date |]; [| discriminate].
  destruct (window rt date) as [[lo hi] |] eqn:Hw; [| discriminate].
  intros H. injection H as <-. exists site, date, lo, hi.
  repeat split; solve [reflexivity | exact Hw].
Qed.

Lemma aggregate_reply (E : Aggregate.Engine) (rt : Runtime) (db : Collection)
  (q_site q_date : option string) (r : StatsResult) :
  Aggregate.stats E rt db q_site q_date = Stats200 r ->
  exists site date lo hi,
    given q_site = Some site /\ given q_date = Some date /\
    window rt date = Some (lo, hi) /\
    r = {| res_site_id := site; res_date := date;
           total_views := Z.of_nat (List.length (Event_find site lo hi db));
           unique_users :=
             Z.of_nat (List.length (Aggregate.group_ids E user_id (Event_find site lo hi db)));
           top_paths :=
             map Aggregate.project
               (Aggregate.limit_10
                  (Aggregate.sort_views E (Aggregate.group_views E (Event_find site lo hi db)))) |}.
Proof.
  unfold Aggregate.stats.
  destruct (given q_site) as [site |]; [| discriminate].
  destruct (given q_date) as [date |]; [| discriminate].
  destruct (window rt date) as [[lo hi] |] eqn:Hw; [| discriminate].
  intros H. injection H as <-. exists site, date, lo, hi.
  split; [reflexivity |]. split; [reflexivity |]. split; [exact Hw |].
  unfold Aggregate.Event_aggregate, Aggregate.first_of. cbn [Aggregate.total Aggregate.facet_unique_users Aggregate.facet_top_paths].
  rewrite !count_or_0. reflexivity.
Qed.

(** *** The two sample engines are lawful *)

Lemma insert_desc_perm (x : option string * Z) (l : list (option string * Z)) :
  Permutation (x :: l) (Aggregate.insert_desc x l).
Proof.
  induction l as [| y l IH]; simpl; [reflexivity |].
  destruct (snd x <? snd y); [| reflexivity].
  rewrite perm_swap. now constructor.
Qed.

Lemma insert_desc_sorted (x : option string * Z) (l : list (option string * Z)) :
  StronglySorted Aggregate.views_desc l ->
  StronglySorted Aggregate.views_desc (Aggregate.insert_desc x l).
Proof.
  induction 1 as [| y l Hl IH Hy]; simpl.
  - repeat constructor.
  - destruct (snd x <? snd y) eqn:Hc.
    + apply Z.ltb_lt in Hc. constructor; [exact IH |].
      apply (Permutation_Forall (insert_desc_perm x l)).
      constructor; [unfold Aggregate.views_desc; lia | exact Hy].
    + apply Z.ltb_ge in Hc. constructor; [now constructor |].
      constructor; [exact Hc |].
      eapply Forall_impl; [| exact Hy].
      unfold Aggregate.views_desc. intros z Hz. lia.
Qed.

Lemma stable_sort_perm (l : list (option string * Z)) :
  Permutation l (fold_right Aggregate.insert_desc [] l).
Proof.
  induction l as [| x l IH]; simpl; [reflexivity |].
  rewrite <- insert_desc_perm. now constructor.
Qed.

Lemma stable_sort_sorted (l : list (option string * Z)) :
  StronglySorted Aggregate.views_desc (fold_right Aggregate.insert_desc [] l).
Proof.
  induction l as [| x l IH]; simpl; [constructor |].
  now apply insert_desc_sorted.
Qed.

Lemma first_seen_lawful : Aggregate.Lawful Aggregate.first_seen.
Proof.
  constructor; simpl.
  - reflexivity.
  - apply stable_sort_perm.
  - apply stable_sort_sorted.
Qed.

Lemma last_seen_lawful : Aggregate.Lawful Aggregate.last_seen.
Proof.
  constructor; simpl.
  - apply Permutation_rev.
  - apply stable_sort_perm.
  - apply stable_sort_sorted.
Qed.

(* ===================================================================== *)
(** ** The runtime on sample inputs *)
(* ===================================================================== *)

Example iso_day : iso_parse "2025-11-15" = Some 1763164800000.
Proof. reflexivity. Qed.

Example iso_instant : iso_parse "2025-11-15T10:00:00Z" = Some 1763200800000.
Proof. reflexivity. Qed.

Example iso_leap : iso_parse "2024-02-29" = Some 1709164800000.
Proof. reflexivity. Qed.

Example iso_garbage : iso_parse "abc" = None.
Proof. reflexivity. Qed.

Example ny_start : iso_parse "2025-11-02" = Some 1762041600000.
Proof. reflexivity. Qed.

Example ny_next : setDate_next new_york 1762041600000 = Some (1762041600000 + 25 * 3600000).
Proof. reflexivity. Qed.

Example num_str : Number_toString 42 = "42"%string.
Proof. reflexivity. Qed.

(* ===================================================================== *)
(** ** The example of the README *)
(* ===================================================================== *)

Example readme_scan :
  Scan.stats utc readme_events (Some "site-abc-123") (Some "2025-11-15")%string
  = Stats200 readme_result.
Proof. reflexivity. Qed.

Example readme_aggregated :
  Aggregate.stats Aggregate.first_seen utc readme_events
    (Some "site-abc-123") (Some "2025-11-15")%string
  = Stats200 readme_result.
Proof. reflexivity. Qed.

(* ===================================================================== *)
(** ** Totals and unique users (C5, C10) *)
(* ===================================================================== *)

(** Whenever either handler answers with statistics, [total_views] is the
    number of events of the collection that belong to the site and to the
    window the handler computed, and [unique_users] lies between zero and
    [total_views]. *)
Lemma stats_totals (E : Aggregate.Engine) (rt : Runtime) (db : Collection)
  (q_site q_date : option string) (r : StatsResult) :
  Aggregate.Lawful E ->
  Scan.stats rt db q_site q_date = Stats200 r \/
  Aggregate.stats E rt db q_site q_date = Stats200 r ->
  exists site date lo hi,
    given q_site = Some site /\ given q_date = Some date /\
    window rt date = Some (lo, hi) /\
    total_views r = Z.of_nat (matching_count site lo hi db) /\
    0 <= unique_users r <= total_views r.
Proof.
  intros HE [H | H].
  - apply scan_reply in H. destruct H as (site & date & lo & hi & Hs & Hd & Hw & ->).
    exists site, date, lo, hi. cbn [total_views unique_users].
    repeat (split; [assumption |]).
    split; [now rewrite Event_find_count |].
    apply scan_unique_le.
  - apply aggregate_reply in H. destruct H as (site & date & lo & hi & Hs & Hd & Hw & ->).
    exists site, date, lo, hi. cbn [total_views unique_users].
    repeat (split; [assumption |]).
    split; [now rewrite Event_find_count |].
    split; [lia |].
    apply Nat2Z.inj_le. now apply group_ids_length.
Qed.

Lemma stats_totals_sample :
  exists site date lo hi,
    given (Some "site-abc-123"%string) = Some site /\
    given (Some "2025-11-15"%string) = Some date /\
    window utc date = Some (lo, hi) /\
    total_views readme_result = Z.of_nat (matching_count site lo hi readme_events) /\
    0 <= unique_users readme_result <= total_views readme_result.
Proof.
  apply (stats_totals Aggregate.first_seen utc readme_events
           (Some "site-abc-123"%string) (Some "2025-11-15"%string) readme_result).
  - exact first_seen_lawful.
  - left. reflexivity.
Qed.

(** On a host that keeps one offset from UTC, [total_views] of either
    handler is the number of events of the site whose timestamp lies in the
    24 hours that start at [new Date(date)]. *)
Lemma stats_totals_on_fixed_offset (E : Aggregate.Engine) (rt : Runtime) (db : Collection)
  (q_site q_date : option string) (site date : string) (lo : Z) (r : StatsResult) :
  Aggregate.Lawful E -> fixed_offset rt ->
  given q_site = Some site -> given q_date = Some date ->
  Date_parse rt date = Some lo ->
  Z.abs (lo + msPerDay) <= 8640000000000000 ->
  Scan.stats rt db q_site q_date = Stats200 r \/
  Aggregate.stats E rt db q_site q_date = Stats200 r ->
  total_views r = Z.of_nat (matching_count site lo (lo + msPerDay) db) /\
  0 <= unique_users r <= total_views r.
Proof.
  intros HE [off Hoff] Hs Hd Hp Hclip H.
  assert (Hw : window rt date = Some (lo, lo + msPerDay)).
  { unfold window, setDate_next. rewrite Hp, !Hoff.
    replace (lo + off + msPerDay - off) with (lo + msPerDay) by lia.
    unfold TimeClip. apply Z.leb_le in Hclip. now rewrite Hclip. }
  destruct (stats_totals E rt db q_site q_date r HE H)
    as (site' & date' & lo' & hi' & Hs' & Hd' & Hw' & Ht & Hu).
  assert (site' = site) by congruence. assert (date' = date) by congruence. subst.
  assert (lo' = lo /\ hi' = lo + msPerDay) as [-> ->] by (split; congruence).
  now split.
Qed.

(** C5.  On a host on New York time, for the day 2025-11-02 (when daylight
    saving time ends), both handlers report [total_views = 1] on a collection
    whose only event is stamped 2025-11-03T00:30:00Z: no event of the
    collection lies in the day, the 24 hours from 2025-11-02T00:00:00Z, but
    the window the handlers compute runs for 25 hours. *)
Theorem total_views_counts_past_the_day :
  iso_parse "2025-11-03T00:30:00Z" = Some 1762129800000 /\
  Date_parse new_york "2025-11-02" = Some 1762041600000 /\
  window new_york "2025-11-02" = Some (1762041600000, 1762041600000 + msPerDay + 3600000) /\
  matching_count "site-abc-123" 1762041600000 (1762041600000 + msPerDay)
    [ page_view (Some "/pricing") (Some "user-1") 1762129800000 ] = O /\
  Scan.stats new_york [ page_view (Some "/pricing") (Some "user-1") 1762129800000 ]
    (Some "site-abc-123") (Some "2025-11-02")
  = Stats200 {| res_site_id := "site-abc-123"; res_date := "2025-11-02";
                total_views := 1; unique_users := 1;
                top_paths := [ {| pv_path := Some "/pricing"; pv_views := VNum 1 |} ] |} /\
  Aggregate.stats Aggregate.first_seen new_york
    [ page_view (Some "/pricing") (Some "user-1") 1762129800000 ]
    (Some "site-abc-123") (Some "2025-11-02")
  = Stats200 {| res_site_id := "site-abc-123"; res_date := "2025-11-02";
                total_views := 1; unique_users := 1;
                top_paths := [ {| pv_path := Some "/pricing"; pv_views := VNum 1 |} ] |}.
Proof. repeat split. Qed.

(** C10.  When no event of the collection belongs to the site and to the
    window, GET /stats/aggregated still answers with statistics: zero views,
    zero users and no path.  The [$count] stages then yield no document, and
    the handler's [|| 0] supplies the zeros. *)
Theorem aggregated_empty (E : Aggregate.Engine) (rt : Runtime) (db : Collection)
  (q_site q_date : option string) (site date : string) (lo hi : Z) :
  Aggregate.Lawful E ->
  given q_site = Some site -> given q_date = Some date ->
  window rt date = Some (lo, hi) ->
  matching_count site lo hi db = O ->
  Aggregate.Event_aggregate E site lo hi db =
  [ {| Aggregate.total := []; Aggregate.facet_unique_users := [];
       Aggregate.facet_top_paths := [] |} ] /\
  Aggregate.stats E rt db q_site q_date =
  Stats200 {| res_site_id := site; res_date := date;
              total_views := 0; unique_users := 0; top_paths := [] |}.
Proof.
  intros HE Hs Hd Hw Hc.
  assert (Hnone : filter (in_range site lo hi) db = []).
  { rewrite <- Event_find_count in Hc. unfold Event_find in Hc.
    now apply length_zero_iff_nil. }
  assert (Hemit : Aggregate.emit E [] = []).
  { apply Permutation_nil, (Aggregate.emit_perm E HE). }
  assert (Hsort : Aggregate.sort_views E [] = []).
  { apply Permutation_nil, (Aggregate.sort_perm E HE). }
  assert (Hdoc : Aggregate.Event_aggregate E site lo hi db =
                 [ {| Aggregate.total := []; Aggregate.facet_unique_users := [];
                      Aggregate.facet_top_paths := [] |} ]).
  { unfold Aggregate.Event_aggregate, Aggregate.group_views, Aggregate.group_ids.
    rewrite Hnone. cbn. rewrite Hemit. cbn. rewrite Hsort. reflexivity. }
  split; [exact Hdoc |].
  unfold Aggregate.stats. rewrite Hs, Hd, Hw, Hdoc. reflexivity.
Qed.

Lemma aggregated_empty_witness :
  Aggregate.Event_aggregate Aggregate.last_seen "site-abc-123"
    1763251200000 1763337600000 readme_events =
  [ {| Aggregate.total := []; Aggregate.facet_unique_users := [];
       Aggregate.facet_top_paths := [] |} ] /\
  Aggregate.stats Aggregate.last_seen utc readme_events
    (Some "site-abc-123"%string) (Some "2025-11-16"%string) =
  Stats200 {| res_site_id := "site-abc-123"; res_date := "2025-11-16";
              total_views := 0; unique_users := 0; top_paths := [] |}.
Proof.
  apply (aggregated_empty Aggregate.last_seen utc readme_events
           (Some "site-abc-123"%string) (Some "2025-11-16"%string)).
  - exact last_seen_lawful.
  - reflexivity.
  - reflexivity.
  - reflexivity.
  - reflexivity.
Defined.

(* ===================================================================== *)
(** ** Accepting events (C3, C4, C9) *)
(* ===================================================================== *)

Lemma missing_fields_nil (body : Ingestion.Body) :
  missing_fields body = [] <->
  truthy (Ingestion.body_site_id body) = true /\
  truthy (Ingestion.body_event_type body) = true /\
  truthy (Ingestion.body_timestamp body) = true.
Proof.
  unfold missing_fields.
  destruct (truthy (Ingestion.body_site_id body)),
           (truthy (Ingestion.body_event_type body)),
           (truthy (Ingestion.body_timestamp body)); simpl;
    split; try discriminate; try tauto; intros (? & ? & ?); discriminate.
Qed.

Lemma missing_fields_named (body : Ingestion.Body) (f : string) :
  In f (missing_fields body) ->
  mentions (Ingestion.message Ingestion.rejected) f = true.
Proof.
  unfold missing_fields.
  intros H. repeat (apply in_app_or in H; destruct H as [H | H]);
    repeat match goal with
           | H : In _ (if ?c then _ else _) |- _ => destruct c
           | H : In _ [] |- _ => destruct H
           | H : In _ [_] |- _ => destruct H as [<- | H]
           end; reflexivity.
Qed.

(** C4, as stated, fails: a body in which only [event_type] is missing is
    rejected with a message that names [site_id] and [timestamp] as well,
    though the body holds both. *)
Lemma rejection_names_present_fields :
  missing_fields no_event_type = ["event_type"%string] /\
  Ingestion.post_event no_event_type (idle_queue true) = (Ingestion.rejected, idle_queue true) /\
  mentions (Ingestion.message Ingestion.rejected) "site_id" = true /\
  mentions (Ingestion.message Ingestion.rejected) "timestamp" = true.
Proof. repeat split. Qed.

(** C4, amended.  A body in which a required field ([site_id], [event_type]
    or [timestamp]) is missing is answered at once with status 400 and one
    fixed message, which names the three required fields whichever of them
    is missing; the queue is left as it was: no job is added and [add] is
    not called. *)
Theorem missing_field_fixed_rejection (body : Ingestion.Body) (q : Ingestion.Queue) :
  missing_fields body <> [] ->
  Ingestion.post_event body q
  = ({| Ingestion.code := 400; Ingestion.status := "error";
        Ingestion.message :=
          Some "Missing required fields: site_id, event_type, timestamp"%string |}, q) /\
  Ingestion.add_calls (snd (Ingestion.post_event body q)) = Ingestion.add_calls q /\
  Ingestion.jobs (snd (Ingestion.post_event body q)) = Ingestion.jobs q /\
  forall f, In f ["site_id"; "event_type"; "timestamp"]%string ->
            mentions (Ingestion.message (fst (Ingestion.post_event body q))) f = true.
Proof.
  intros Hmiss.
  assert (Hrej : Ingestion.post_event body q = (Ingestion.rejected, q)).
  { unfold Ingestion.post_event.
    destruct (truthy (Ingestion.body_site_id body)) eqn:H1;
      destruct (truthy (Ingestion.body_event_type body)) eqn:H2;
      destruct (truthy (Ingestion.body_timestamp body)) eqn:H3;
      try reflexivity.
    exfalso. apply Hmiss. apply missing_fields_nil. auto. }
  rewrite Hrej. repeat split.
  intros f [<- | [<- | [<- | []]]]; reflexivity.
Qed.

Lemma missing_field_fixed_rejection_witness :
  Ingestion.post_event no_event_type (idle_queue true)
  = ({| Ingestion.code := 400; Ingestion.status := "error";
        Ingestion.message :=
          Some "Missing required fields: site_id, event_type, timestamp"%string |},
     idle_queue true) /\
  Ingestion.add_calls (snd (Ingestion.post_event no_event_type (idle_queue true)))
  = Ingestion.add_calls (idle_queue true) /\
  Ingestion.jobs (snd (Ingestion.post_event no_event_type (idle_queue true)))
  = Ingestion.jobs (idle_queue true) /\
  forall f, In f ["site_id"; "event_type"; "timestamp"]%string ->
            mentions (Ingestion.message
                        (fst (Ingestion.post_event no_event_type (idle_queue true)))) f
            = true.
Proof.
  apply (missing_field_fixed_rejection no_event_type (idle_queue true)).
  discriminate.
Defined.



(** C3, as stated, fails: a body whose [timestamp] is the text
    "not-a-date", from which no date can be read, is not rejected.  The
    handler answers "accepted" and the job is in the queue. *)
Lemma unparseable_timestamp_accepted :
  new_Date utc (JStr "not-a-date") = None /\
  Ingestion.post_event (page_view_body (JStr "not-a-date")) (idle_queue true) =
  (Ingestion.accepted,
   {| Ingestion.reachable := true;
      Ingestion.jobs := [ {| Ingestion.job_name := "process-event";
                             Ingestion.job_data := page_view_body (JStr "not-a-date") |} ];
      Ingestion.add_calls := 1 |}).
Proof. split; reflexivity. Qed.

(* ===================================================================== *)
(** ** The persistence worker (C8) *)
(* ===================================================================== *)





(** A payload that passes is written once, at the end of the collection,
    and the job completes; when the database is down the job is failed. *)
Lemma valid_payload_written (rt : Runtime) (db_up : bool) (job : Ingestion.Job)
  (db : Collection) (e : Event) :
  Worker.validate (Worker.new_Event rt (Ingestion.job_data job)) = Some e ->
  Worker.process rt db_up job db =
  if db_up then (Worker.Completed, db ++ [e]) else (Worker.Failed, db).
Proof.
  intros Hv. unfold Worker.process, Worker.Event_save. rewrite Hv.
  now destruct db_up.
Qed.

(** C3, amended.  A body in which the three required fields are present
    but from whose [timestamp] no valid date comes is not rejected by
    POST /event: when the queue takes the submission, the job is added and
    the answer is "accepted".  The timestamp is caught by the worker alone:
    it writes nothing for that job and fails it. *)
Theorem unparseable_timestamp_deferred (rt : Runtime) (body : Ingestion.Body)
  (q : Ingestion.Queue) (db_up : bool) (db : Collection) :
  missing_fields body = [] ->
  new_Date rt (Ingestion.body_timestamp body) = None ->
  Ingestion.reachable q = true ->
  Ingestion.post_event body q =
  (Ingestion.accepted,
   {| Ingestion.reachable := true;
      Ingestion.jobs := Ingestion.jobs q ++
                        [ {| Ingestion.job_name := "process-event";
                             Ingestion.job_data := body |} ];
      Ingestion.add_calls := S (Ingestion.add_calls q) |}) /\
  Worker.process rt db_up
    {| Ingestion.job_name := "process-event"; Ingestion.job_data := body |} db
  = (Worker.Failed, db).
Proof.
  intros Hall Hts Hup. apply missing_fields_nil in Hall. destruct Hall as (H1 & H2 & H3).
  split.
  - unfold Ingestion.post_event, Ingestion.Queue_add. now rewrite H1, H2, H3, Hup.
  - unfold Worker.process, Worker.Event_save, Worker.validate, Worker.new_Event.
    cbn [Worker.doc_site_id Worker.doc_event_type Worker.doc_timestamp Ingestion.job_data].
    rewrite Hts.
    now destruct (Worker.required_String (Worker.cast_String (Ingestion.body_site_id body))),
      (Worker.required_String (Worker.cast_String (Ingestion.body_event_type body))).
Qed.

Lemma unparseable_timestamp_deferred_witness :
  Ingestion.post_event (page_view_body (JStr "not-a-date")) (idle_queue true) =
  (Ingestion.accepted,
   {| Ingestion.reachable := true;
      Ingestion.jobs := Ingestion.jobs (idle_queue true) ++
                        [ {| Ingestion.job_name := "process-event";
                             Ingestion.job_data := page_view_body (JStr "not-a-date") |} ];
      Ingestion.add_calls := S (Ingestion.add_calls (idle_queue true)) |}) /\
  Worker.process utc true
    {| Ingestion.job_name := "process-event";
       Ingestion.job_data := page_view_body (JStr "not-a-date") |} readme_events
  = (Worker.Failed, readme_events).
Proof.
  apply (unparseable_timestamp_deferred utc (page_view_body (JStr "not-a-date"))
           (idle_queue true) true readme_events); reflexivity.
Defined.

Example worker_saves :
  Worker.process utc true
    {| Ingestion.job_name := "process-event";
       Ingestion.job_data := page_view_body (JStr "2025-11-15T10:00:00Z") |} []
  = (Worker.Completed, [ page_view (Some "/pricing") (Some "user-1") 1763200800000 ]).
Proof. reflexivity. Qed.

(* ===================================================================== *)
(** ** The window of a day (C7) *)
(* ===================================================================== *)

(** On a host that keeps one offset from UTC the window is the 24 hours
    that start at [new Date(date)]. *)
Lemma window_fixed_offset (rt : Runtime) (date : string) (lo : Z) :
  fixed_offset rt ->
  Date_parse rt date = Some lo ->
  Z.abs (lo + msPerDay) <= 8640000000000000 ->
  window rt date = Some (lo, lo + msPerDay).
Proof.
  intros [off Hoff] Hp Hclip.
  unfold window, setDate_next. rewrite Hp, !Hoff.
  replace (lo + off + msPerDay - off) with (lo + msPerDay) by lia.
  unfold TimeClip. apply Z.leb_le in Hclip. now rewrite Hclip.
Qed.

(** There, both handlers read exactly the events of the site whose
    timestamp lies in [[lo, lo + msPerDay)]. *)
Lemma day_is_half_open (rt : Runtime) (date site : string) (lo : Z)
  (db : Collection) (e : Event) :
  fixed_offset rt ->
  Date_parse rt date = Some lo ->
  Z.abs (lo + msPerDay) <= 8640000000000000 ->
  exists hi, window rt date = Some (lo, hi) /\
    (In e (Event_find site lo hi db) <->
     In e db /\ site_id e = site /\ lo <= timestamp e /\ timestamp e < lo + msPerDay).
Proof.
  intros Hfix Hp Hclip. exists (lo + msPerDay).
  split; [now apply window_fixed_offset |].
  unfold Event_find. rewrite filter_In, in_range_in_day. unfold in_day. tauto.
Qed.

Lemma utc_fixed_offset : fixed_offset utc.
Proof. exists 0. reflexivity. Qed.

Example last_millisecond_counts :
  iso_parse "2025-11-15T23:59:59.999Z" = Some 1763251199999 /\
  Scan.stats utc [ page_view None None 1763251199999 ]
    (Some "site-abc-123") (Some "2025-11-15")
  = Stats200 {| res_site_id := "site-abc-123"; res_date := "2025-11-15";
                total_views := 1; unique_users := 0; top_paths := [] |}.
Proof. split; reflexivity. Qed.

Example next_midnight_does_not_count :
  iso_parse "2025-11-16T00:00:00.000Z" = Some 1763251200000 /\
  Scan.stats utc [ page_view None None 1763251200000 ]
    (Some "site-abc-123") (Some "2025-11-15")
  = Stats200 {| res_site_id := "site-abc-123"; res_date := "2025-11-15";
                total_views := 0; unique_users := 0; top_paths := [] |}.
Proof. split; reflexivity. Qed.

(** C7.  On a host on New York time, the day 2025-11-02 (when daylight
    saving time ends) gets a window of 25 hours: the event stamped
    2025-11-03T00:00:00.000Z, the first instant of the next day, is counted
    by both handlers. *)
Theorem next_midnight_counted_on_dst_host :
  iso_parse "2025-11-02" = Some 1762041600000 /\
  iso_parse "2025-11-03T00:00:00.000Z" = Some (1762041600000 + msPerDay) /\
  window new_york "2025-11-02" = Some (1762041600000, 1762041600000 + msPerDay + 3600000) /\
  Scan.stats new_york [ page_view None None (1762041600000 + msPerDay) ]
    (Some "site-abc-123") (Some "2025-11-02")
  = Stats200 {| res_site_id := "site-abc-123"; res_date := "2025-11-02";
                total_views := 1; unique_users := 0; top_paths := [] |} /\
  Aggregate.stats Aggregate.first_seen new_york
    [ page_view None None (1762041600000 + msPerDay) ]
    (Some "site-abc-123") (Some "2025-11-02")
  = Stats200 {| res_site_id := "site-abc-123"; res_date := "2025-11-02";
                total_views := 1; unique_users := 1;
                top_paths := [ {| pv_path := None; pv_views := VNum 1 |} ] |}.
Proof. repeat split. Qed.

(* ===================================================================== *)
(** ** Missing [user_id] and [path] (C1, C2) *)
(* ===================================================================== *)

(** The scan strategy counts the distinct non-empty user ids. *)
Lemma scan_skips_missing_user (events : list Event) (u : option string) :
  In u (Scan.new_Set (filter Scan.Boolean (map user_id events))) <->
  exists s, u = Some s /\ s <> ""%string /\ In (Some s) (map user_id events).
Proof.
  unfold Scan.new_Set. rewrite distinct_In, filter_In. split.
  - intros [Hin Hb]. destruct u as [s |]; [| discriminate].
    exists s. simpl in Hb. apply negb_true_iff, String.eqb_neq in Hb. auto.
  - intros (s & -> & Hs & Hin). split; [assumption |].
    simpl. now apply negb_true_iff, String.eqb_neq.
Qed.

(** The engine-native strategy counts one user more than the scan strategy
    as soon as one event of the day carries no [user_id], whatever the
    engine. *)
Lemma aggregated_counts_missing_user (E : Aggregate.Engine) (events : list Event) :
  Aggregate.Lawful E ->
  In None (map user_id events) ->
  Scan.unique_users_of events
  < Z.of_nat (List.length (Aggregate.group_ids E user_id events)).
Proof.
  intros HE Hnone.
  unfold Scan.unique_users_of, Aggregate.group_ids.
  rewrite <- (Permutation_length (Aggregate.emit_perm E HE _)).
  apply Nat2Z.inj_lt. unfold lt.
  change (S (List.length (Scan.new_Set (filter Scan.Boolean (map user_id events)))))
    with (List.length (None :: Scan.new_Set (filter Scan.Boolean (map user_id events)))).
  apply NoDup_incl_length.
  - constructor; [| apply distinct_NoDup].
    intros H. apply scan_skips_missing_user in H. destruct H as (s & Hs & _). discriminate.
  - intros u [<- | Hu]; apply distinct_In; [assumption |].
    apply scan_skips_missing_user in Hu. destruct Hu as (s & -> & _ & Hin). exact Hin.
Qed.


(** C2.  On a single event that carries neither [user_id] nor [path],
    GET /stats/aggregated counts one unique user and lists one path, null,
    with one view; GET /stats counts no user and lists no path. *)
Theorem aggregated_counts_missing_values :
  Aggregate.stats Aggregate.first_seen utc [ page_view None None 1763200800000 ]
    (Some "site-abc-123") (Some "2025-11-15")
  = Stats200 {| res_site_id := "site-abc-123"; res_date := "2025-11-15";
                total_views := 1; unique_users := 1;
                top_paths := [ {| pv_path := None; pv_views := VNum 1 |} ] |} /\
  Scan.stats utc [ page_view None None 1763200800000 ]
    (Some "site-abc-123") (Some "2025-11-15")
  = Stats200 {| res_site_id := "site-abc-123"; res_date := "2025-11-15";
                total_views := 1; unique_users := 0; top_paths := [] |}.
Proof. split; reflexivity. Qed.

(* ===================================================================== *)
(** ** The order of [top_paths] (C6) *)
(* ===================================================================== *)

Section Sorting.

Variable A : Type.

Lemma StronglySorted_weaken (R S : A -> A -> Prop) (l : list A) :
  (forall a b, In a l -> In b l -> R a b -> S a b) ->
  StronglySorted R l -> StronglySorted S l.
Proof.
  intros HRS H. induction H as [| a l Hl IH Ha]; constructor.
  - apply IH. intros x y Hx Hy. apply HRS; now right.
  - rewrite Forall_forall in *. intros b Hb. apply HRS; [now left | now right | auto].
Qed.

Lemma StronglySorted_snoc (R : A -> A -> Prop) (l : list A) (x : A) :
  StronglySorted R l -> Forall (fun a => R a x) l -> StronglySorted R (l ++ [x]).
Proof.
  induction 1 as [| a l Hl IH Ha]; intros Hx; simpl.
  - repeat constructor.
  - inversion Hx as [| ? ? Hax Hlx]; subst. constructor; [now apply IH |].
    apply Forall_app. split; [exact Ha | now constructor].
Qed.

Lemma StronglySorted_append (R : A -> A -> Prop) (l1 l2 : list A) :
  StronglySorted R l1 -> StronglySorted R l2 ->
  (forall a b, In a l1 -> In b l2 -> R a b) ->
  StronglySorted R (l1 ++ l2).
Proof.
  induction 1 as [| a l Hl IH Ha]; intros H2 Hx; simpl; [assumption |].
  constructor.
  - apply IH; [assumption |]. intros x y Hx1 Hy. apply Hx; [now right | assumption].
  - apply Forall_app. split; [exact Ha |].
    apply Forall_forall. intros y Hy. apply Hx; [now left | assumption].
Qed.

Lemma StronglySorted_filter (R : A -> A -> Prop) (f : A -> bool) (l : list A) :
  StronglySorted R l -> StronglySorted R (filter f l).
Proof.
  induction 1 as [| a l Hl IH Ha]; simpl; [constructor |].
  destruct (f a); [| exact IH].
  constructor; [exact IH |].
  apply Forall_forall. intros b Hb. apply filter_In in Hb.
  rewrite Forall_forall in Ha. now apply Ha.
Qed.

Lemma StronglySorted_firstn (R : A -> A -> Prop) (n : nat) (l : list A) :
  StronglySorted R l -> StronglySorted R (firstn n l).
Proof.
  intros H. revert n. induction H as [| a l Hl IH Ha]; intros [| n]; simpl; try constructor.
  - apply IH.
  - apply Forall_forall. intros b Hb.
    rewrite Forall_forall in Ha. apply Ha.
    rewrite <- (firstn_skipn n l). apply in_or_app. now left.
Qed.

Lemma StronglySorted_map (B : Type) (R : A -> A -> Prop) (S : B -> B -> Prop)
  (f : A -> B) (l : list A) :
  (forall a b, R a b -> S (f a) (f b)) ->
  StronglySorted R l -> StronglySorted S (map f l).
Proof.
  intros HRS. induction 1 as [| a l Hl IH Ha]; simpl; constructor; [exact IH |].
  apply Forall_map. eapply Forall_impl; [| exact Ha]. intros b. apply HRS.
Qed.

End Sorting.

Arguments StronglySorted_weaken {A} R S l.
Arguments StronglySorted_snoc {A} R l x.
Arguments StronglySorted_append {A} R l1 l2.
Arguments StronglySorted_filter {A} R f l.
Arguments StronglySorted_firstn {A} R n l.
Arguments StronglySorted_map {A B} R S f l.

(** *** [Array.prototype.sort] is stable *)

Section StableSort.

Variable tie : PathViews -> PathViews -> Prop.

Lemma insert_by_In (x y : PathViews) (l : list PathViews) :
  In y (Scan.insert_by Scan.by_views x l) <-> y = x \/ In y l.
Proof.
  induction l as [| z l IH]; simpl; [intuition congruence |].
  destruct (0 <? Scan.by_views x z); simpl; [rewrite IH |]; intuition congruence.
Qed.

Lemma insert_by_ranked (x : PathViews) (l : list PathViews) :
  numeric x -> Forall numeric l ->
  Forall (tie x) l ->
  StronglySorted (by_rank tie) l ->
  StronglySorted (by_rank tie) (Scan.insert_by Scan.by_views x l).
Proof.
  intros [vx Hx] Hnum Htie Hs.
  induction Hs as [| y l Hl IH Hy]; simpl.
  - repeat constructor.
  - inversion Hnum as [| ? ? [vy Hvy] Hnum']; subst.
    inversion Htie as [| ? ? Hxy Htie']; subst.
    unfold Scan.by_views at 1. rewrite Hx, Hvy. cbn [Scan.ToNumber].
    destruct (0 <? vy - vx) eqn:Hc.
    + apply Z.ltb_lt in Hc. constructor; [now apply IH |].
      apply Forall_forall. intros z Hz. apply (proj1 (insert_by_In _ _ _)) in Hz.
      destruct Hz as [-> | Hz].
      * exists vy, vx. repeat split; try assumption. left. lia.
      * rewrite Forall_forall in Hy. now apply Hy.
    + apply Z.ltb_ge in Hc. constructor; [now constructor |].
      constructor.
      * exists vx, vy. repeat split; try assumption.
        destruct (Z.eq_dec vy vx) as [-> | Hne]; [right; now split | left; lia].
      * rewrite Forall_forall in *. intros z Hz.
        destruct (Hy z Hz) as (m & n & Hm & Hn & Hord).
        rewrite Hvy in Hm. injection Hm as <-.
        exists vx, n. repeat split; try assumption.
        destruct (Z.eq_dec n vx) as [-> | Hne]; [right; split; auto | left; lia].
Qed.

Lemma Array_sort_In (l : list PathViews) (y : PathViews) :
  In y (Scan.Array_sort Scan.by_views l) <-> In y l.
Proof.
  induction l as [| x l IH]; simpl; [tauto |].
  rewrite insert_by_In, IH. intuition congruence.
Qed.

Lemma Array_sort_ranked (l : list PathViews) :
  Forall numeric l ->
  StronglySorted tie l ->
  StronglySorted (by_rank tie) (Scan.Array_sort Scan.by_views l).
Proof.
  intros Hnum Hs. induction Hs as [| x l Hl IH Hx]; simpl; [constructor |].
  inversion Hnum as [| ? ? Hnx Hnl]; subst.
  apply insert_by_ranked.
  - exact Hnx.
  - apply Forall_forall. intros y Hy. apply (proj1 (Array_sort_In _ _)) in Hy.
    rewrite Forall_forall in Hnl. now apply Hnl.
  - apply Forall_forall. intros y Hy. apply (proj1 (Array_sort_In _ _)) in Hy.
    rewrite Forall_forall in Hx. now apply Hx.
  - now apply IH.
Qed.

End StableSort.

(** *** [pathCounts] lists the paths in the order of their first event *)

Lemma own_get_In (o : Scan.JSObject) (k : string) (v : Views) :
  Scan.own_get o k = Some v -> In (k, v) o.
Proof.
  induction o as [| [k' v'] o IH]; simpl; [discriminate |].
  destruct (k' =? k)%string eqn:Hk.
  - apply String.eqb_eq in Hk. intros [= <-]. subst. now left.
  - intros H. right. now apply IH.
Qed.

Lemma own_get_None (o : Scan.JSObject) (k : string) :
  Scan.own_get o k = None <-> ~ In k (map fst o).
Proof.
  induction o as [| [k' v'] o IH]; simpl; [tauto |].
  destruct (k' =? k)%string eqn:Hk.
  - apply String.eqb_eq in Hk. split; [discriminate | tauto].
  - apply String.eqb_neq in Hk. rewrite IH. tauto.
Qed.

Lemma own_set_In (o : Scan.JSObject) (k : string) (v : Views) (b : string * Views) :
  In b (Scan.own_set o k v) -> b = (k, v) \/ In b o.
Proof.
  induction o as [| [k' v'] o IH]; simpl; [intuition congruence |].
  destruct (k' =? k)%string eqn:Hk; simpl.
  - apply String.eqb_eq in Hk. subst. intuition congruence.
  - intros [H | H]; [tauto |]. apply IH in H. tauto.
Qed.

Lemma own_set_keys (o : Scan.JSObject) (k : string) (v : Views) (x : string) :
  In x (map fst (Scan.own_set o k v)) <-> x = k \/ In x (map fst o).
Proof.
  induction o as [| [k' v'] o IH]; simpl; [intuition congruence |].
  destruct (k' =? k)%string eqn:Hk; simpl.
  - apply String.eqb_eq in Hk. subst. intuition congruence.
  - rewrite IH. tauto.
Qed.

Lemma own_set_sorted (R : string -> string -> Prop) (o : Scan.JSObject)
  (k : string) (v : Views) :
  StronglySorted (fun a b => R (fst a) (fst b)) o ->
  In k (map fst o) \/ Forall (fun a => R (fst a) k) o ->
  StronglySorted (fun a b => R (fst a) (fst b)) (Scan.own_set o k v).
Proof.
  induction 1 as [| [k' v'] o Ho IH Hk']; intros Hk; simpl.
  - repeat constructor.
  - destruct (k' =? k)%string eqn:Heq.
    + constructor; [exact Ho | exact Hk'].
    + apply String.eqb_neq in Heq.
      assert (Hrk : R k' k).
      { destruct Hk as [[Hk | Hk] | Hk].
        - simpl in Hk. congruence.
        - apply in_map_iff in Hk. destruct Hk as ([k0 v0] & Hf & Hin). simpl in Hf. subst k0.
          rewrite Forall_forall in Hk'. apply (Hk' _ Hin).
        - now inversion Hk. }
      constructor.
      * apply IH. destruct Hk as [[Hk | Hk] | Hk].
        -- simpl in Hk. congruence.
        -- now left.
        -- right. now inversion Hk.
      * apply Forall_forall. intros b Hb. apply own_set_In in Hb.
        destruct Hb as [-> | Hb]; [exact Hrk |].
        rewrite Forall_forall in Hk'. now apply Hk'.
Qed.

Lemma seen_before_later (pre more : list Event) (p q : string) :
  seen_before pre p q -> seen_before (pre ++ more) p q.
Proof.
  intros (a & e & b & -> & Hp & Hq).
  exists a, e, (b ++ more). rewrite <- app_assoc. now split.
Qed.

Lemma seen_before_new (pre : list Event) (e : Event) (p q : string) :
  In (Some p) (map path pre) -> ~ In (Some q) (map path pre) ->
  seen_before (pre ++ [e]) p q.
Proof.
  intros Hp Hq. apply in_map_iff in Hp. destruct Hp as (e0 & He0 & Hin).
  apply in_split in Hin. destruct Hin as (a & b & ->).
  exists a, e0, (b ++ [e]). rewrite <- app_assoc. repeat split; try assumption.
  intros H. apply Hq. rewrite map_app in *. apply in_or_app.
  apply in_app_or in H. destruct H as [H | H]; [now left | right].
  simpl in *. destruct H as [H | []]. now left.
Qed.

Lemma counted_later (pre : list Event) (o : Scan.JSObject) (e : Event) :
  counted pre o ->
  (forall p, path e = Some p -> p = ""%string) ->
  counted (pre ++ [e]) o.
Proof.
  intros [Hn Hk Ho] He. constructor.
  - exact Hn.
  - intros p. rewrite Hk, map_app, in_app_iff. simpl. split; [tauto |].
    intros [[H | [H | []]] Hp]; [tauto |]. apply He in H. contradiction.
  - eapply StronglySorted_weaken; [| exact Ho].
    intros a b _ _. apply seen_before_later.
Qed.

Lemma not_inherited_proto (p : string) :
  Scan.inherited p = false -> (p =? "__proto__")%string = false.
Proof.
  intros H. destruct (p =? "__proto__")%string eqn:Hp; [| reflexivity].
  apply String.eqb_eq in Hp. subst. discriminate.
Qed.

Lemma count_path_counted (pre : list Event) (o : Scan.JSObject) (e : Event) :
  counted pre o ->
  (forall p, path e = Some p -> Scan.inherited p = false) ->
  counted (pre ++ [e]) (Scan.count_path o e).
Proof.
  intros Hc Hplain. unfold Scan.count_path.
  destruct (path e) as [p |] eqn:Hp;
    [| apply counted_later; [assumption | intros p' H; congruence]].
  simpl. destruct (p =? "")%string eqn:Hempty; simpl.
  { apply String.eqb_eq in Hempty. apply counted_later; [assumption |].
    intros p' H. congruence. }
  apply String.eqb_neq in Hempty.
  specialize (Hplain p eq_refl).
  unfold Scan.Object_set. rewrite (not_inherited_proto p Hplain).
  destruct Hc as [Hn Hk Ho].
  assert (Hv : exists n, Scan.next_count o p = VNum n).
  { unfold Scan.next_count. destruct (Scan.own_get o p) as [[n | s] |] eqn:Hg.
    - now exists (n + 1).
    - apply own_get_In in Hg. rewrite Forall_forall in Hn.
      destruct (Hn _ Hg) as [n Hs]. discriminate.
    - rewrite Hplain. now exists 1. }
  destruct Hv as [n Hv]. rewrite Hv.
  constructor.
  - apply Forall_forall. intros b Hb. apply own_set_In in Hb.
    destruct Hb as [-> | Hb]; [now exists n |].
    rewrite Forall_forall in Hn. now apply Hn.
  - intros q. rewrite own_set_keys, Hk, map_app, in_app_iff. simpl. rewrite Hp.
    split.
    + intros [-> | [H1 H2]]; [| tauto]. split; [| assumption]. right. now left.
    + intros [[H | [H | []]] Hq]; [tauto |]. left. congruence.
  - apply own_set_sorted.
    + eapply StronglySorted_weaken; [| exact Ho].
      intros a b _ _. apply seen_before_later.
    + destruct (Scan.own_get o p) eqn:Hg.
      * left. apply own_get_In in Hg. apply in_map_iff. now exists (p, v).
      * right. apply own_get_None in Hg.
        apply Forall_forall. intros [k v] Hin. simpl.
        apply seen_before_new.
        -- apply (Hk k). apply in_map_iff. now exists (k, v).
        -- intros H. apply Hg. apply Hk. now split.
Qed.

Lemma fold_counted (l pre : list Event) (o : Scan.JSObject) :
  counted pre o -> plain_paths l ->
  counted (pre ++ l) (fold_left Scan.count_path l o).
Proof.
  revert pre o. induction l as [| e l IH]; intros pre o Hc Hp; simpl.
  - now rewrite app_nil_r.
  - unfold plain_paths in Hp. simpl in Hp. apply andb_true_iff in Hp.
    destruct Hp as [He Hl].
    replace (pre ++ e :: l) with ((pre ++ [e]) ++ l) by now rewrite <- app_assoc.
    apply IH; [| exact Hl].
    apply count_path_counted; [assumption |].
    intros p Hpe. rewrite Hpe in He. now apply negb_true_iff in He.
Qed.

Lemma pathCounts_counted (events : list Event) :
  plain_paths events -> counted events (Scan.pathCounts_of events).
Proof.
  intros Hp. apply (fold_counted events [] []); [| assumption].
  constructor; simpl.
  - constructor.
  - intros p. tauto.
  - constructor.
Qed.

(** *** [Object.entries] lists array indices first *)

Lemma insert_index_In (x y : string * Views) (l : list (string * Views)) :
  In y (Scan.insert_index x l) <-> y = x \/ In y l.
Proof.
  induction l as [| z l IH]; simpl; [intuition congruence |].
  destruct (Scan.index_of x <? Scan.index_of z); simpl; [| rewrite IH]; intuition congruence.
Qed.

Lemma insert_index_sorted (x : string * Views) (l : list (string * Views)) :
  StronglySorted (fun a b => Scan.index_of a <= Scan.index_of b) l ->
  StronglySorted (fun a b => Scan.index_of a <= Scan.index_of b) (Scan.insert_index x l).
Proof.
  induction 1 as [| y l Hl IH Hy]; simpl.
  - repeat constructor.
  - destruct (Scan.index_of x <? Scan.index_of y) eqn:Hc.
    + apply Z.ltb_lt in Hc. constructor; [now constructor |].
      constructor; [lia |].
      eapply Forall_impl; [| exact Hy]. intros z Hz. simpl in Hz. lia.
    + apply Z.ltb_ge in Hc. constructor; [exact IH |].
      apply Forall_forall. intros z Hz. apply (proj1 (insert_index_In _ _ _)) in Hz.
      destruct Hz as [-> | Hz]; [exact Hc |].
      rewrite Forall_forall in Hy. now apply Hy.
Qed.

Lemma by_index_In (l : list (string * Views)) (y : string * Views) :
  In y (fold_right Scan.insert_index [] l) <-> In y l.
Proof.
  induction l as [| x l IH]; simpl; [tauto |].
  rewrite insert_index_In, IH. intuition congruence.
Qed.

Lemma by_index_sorted (l : list (string * Views)) :
  StronglySorted (fun a b => Scan.index_of a <= Scan.index_of b)
    (fold_right Scan.insert_index [] l).
Proof.
  induction l as [| x l IH]; simpl; [constructor |].
  now apply insert_index_sorted.
Qed.

Lemma Object_entries_In (o : Scan.JSObject) (b : string * Views) :
  In b (Scan.Object_entries o) <-> In b o.
Proof.
  unfold Scan.Object_entries.
  rewrite in_app_iff, by_index_In, !filter_In.
  destruct (Scan.is_index b); simpl; intuition congruence.
Qed.

Lemma Object_entries_order (events : list Event) (o : Scan.JSObject) :
  StronglySorted (fun a b => seen_before events (fst a) (fst b)) o ->
  StronglySorted (fun a b => own_key_order events (fst a) (fst b)) (Scan.Object_entries o).
Proof.
  intros Ho. unfold Scan.Object_entries. apply StronglySorted_append.
  - eapply StronglySorted_weaken; [| apply by_index_sorted].
    intros a b Ha Hb Hab.
    apply (proj1 (by_index_In _ _)), filter_In in Ha.
    apply (proj1 (by_index_In _ _)), filter_In in Hb.
    destruct Ha as [_ Ha], Hb as [_ Hb].
    unfold Scan.is_index in Ha, Hb. unfold Scan.index_of in Hab. unfold own_key_order.
    destruct (Scan.array_index (fst a)); [| discriminate].
    destruct (Scan.array_index (fst b)); [| discriminate].
    exact Hab.
  - eapply StronglySorted_weaken; [| apply StronglySorted_filter, Ho].
    intros a b Ha Hb Hab. apply filter_In in Ha, Hb.
    destruct Ha as [_ Ha], Hb as [_ Hb].
    unfold Scan.is_index in Ha, Hb. unfold own_key_order.
    destruct (Scan.array_index (fst a)); [discriminate |].
    destruct (Scan.array_index (fst b)); [discriminate |].
    exact Hab.
  - intros a b Ha Hb.
    apply (proj1 (by_index_In _ _)), filter_In in Ha. apply filter_In in Hb.
    destruct Ha as [_ Ha], Hb as [_ Hb].
    unfold Scan.is_index in Ha, Hb. unfold own_key_order.
    destruct (Scan.array_index (fst a)); [| discriminate].
    destruct (Scan.array_index (fst b)); [discriminate |].
    exact I.
Qed.

(** *** [top_paths] of either strategy *)

Lemma scan_top_paths_short (events : list Event) :
  (List.length (Scan.top_paths_of events) <= 10)%nat.
Proof. unfold Scan.top_paths_of, Scan.slice_10. apply firstn_le_length. Qed.

Lemma scan_top_paths_ranked (events : list Event) :
  plain_paths events ->
  StronglySorted (by_rank (key_tie events)) (Scan.top_paths_of events).
Proof.
  intros Hp. destruct (pathCounts_counted events Hp) as [Hn _ Ho].
  unfold Scan.top_paths_of, Scan.slice_10.
  apply StronglySorted_firstn, Array_sort_ranked.
  - apply Forall_map, Forall_forall. intros kv Hkv.
    apply (proj1 (Object_entries_In _ _)) in Hkv. rewrite Forall_forall in Hn.
    exact (Hn kv Hkv).
  - eapply StronglySorted_map; [| apply Object_entries_order, Ho].
    intros a b Hab. exists (fst a), (fst b). now repeat split.
Qed.

Lemma aggregated_top_paths_ranked (E : Aggregate.Engine) (events : list Event) :
  Aggregate.Lawful E ->
  StronglySorted (by_rank any_tie)
    (map Aggregate.project
       (Aggregate.limit_10 (Aggregate.sort_views E (Aggregate.group_views E events)))).
Proof.
  intros HE. unfold Aggregate.limit_10.
  eapply StronglySorted_map; [| apply StronglySorted_firstn, (Aggregate.sort_desc E HE)].
  intros a b Hab. unfold Aggregate.views_desc in Hab.
  exists (snd a), (snd b). repeat split.
  unfold any_tie. lia.
Qed.

(** C6, as stated, fails for GET /stats: "/about" was persisted before
    "404" and both have one view, yet "404" stands first in [top_paths]. *)
Lemma index_path_listed_first :
  Scan.stats utc about_then_404 (Some "site-abc-123") (Some "2025-11-15")
  = Stats200 {| res_site_id := "site-abc-123"; res_date := "2025-11-15";
                total_views := 2; unique_users := 2;
                top_paths :=
                  [ {| pv_path := Some "404"; pv_views := VNum 1 |};
                    {| pv_path := Some "/about"; pv_views := VNum 1 |} ] |} /\
  seen_before about_then_404 "/about" "404".
Proof.
  split; [reflexivity |].
  exists [], (page_view (Some "/about") (Some "user-1") 1763200800000),
    [ page_view (Some "404") (Some "user-2") 1763201100000 ].
  repeat split. simpl. intros [H | []]. discriminate.
Qed.

(** C6, amended.  Both handlers list at most 10 paths, each with a number
    of views, from the most viewed to the least.  Among paths with as many
    views, GET /stats lists those that are array indices first, in ascending
    order, and then the others in the order in which the events of the day
    first brought them, provided no path names a property inherited from
    [Object.prototype]; GET /stats/aggregated leaves their order to the
    engine. *)
Theorem top_paths_ranked (E : Aggregate.Engine) (rt : Runtime) (db : Collection)
  (q_site q_date : option string) (site date : string) (lo hi : Z) :
  Aggregate.Lawful E ->
  given q_site = Some site -> given q_date = Some date ->
  window rt date = Some (lo, hi) ->
  exists scanned aggregated,
    Scan.stats rt db q_site q_date = Stats200 scanned /\
    Aggregate.stats E rt db q_site q_date = Stats200 aggregated /\
    (List.length (top_paths scanned) <= 10)%nat /\
    (List.length (top_paths aggregated) <= 10)%nat /\
    StronglySorted (by_rank any_tie) (top_paths aggregated) /\
    (plain_paths (Event_find site lo hi db) ->
     StronglySorted (by_rank (key_tie (Event_find site lo hi db))) (top_paths scanned)).
Proof.
  intros HE Hs Hd Hw.
  destruct (Aggregate.stats E rt db q_site q_date) as [aggregated | |] eqn:Ha;
    try (unfold Aggregate.stats in Ha; rewrite Hs, Hd, Hw in Ha; discriminate).
  destruct (aggregate_reply E rt db q_site q_date aggregated Ha)
    as (site' & date' & lo' & hi' & Hs' & Hd' & Hw' & Hr).
  assert (site' = site) by congruence. assert (date' = date) by congruence. subst site' date'.
  assert (lo' = lo /\ hi' = hi) as [-> ->] by (split; congruence).
  eexists. exists aggregated.
  split; [unfold Scan.stats; rewrite Hs, Hd, Hw; reflexivity |].
  split; [reflexivity |].
  cbn [top_paths]. rewrite Hr. cbn [top_paths].
  split; [apply scan_top_paths_short |].
  split; [rewrite length_map; apply firstn_le_length |].
  split; [now apply aggregated_top_paths_ranked |].
  apply scan_top_paths_ranked.
Qed.

Lemma top_paths_ranked_witness :
  exists scanned aggregated,
    Scan.stats utc about_then_404 (Some "site-abc-123") (Some "2025-11-15")
    = Stats200 scanned /\
    Aggregate.stats Aggregate.last_seen utc about_then_404
      (Some "site-abc-123") (Some "2025-11-15") = Stats200 aggregated /\
    (List.length (top_paths scanned) <= 10)%nat /\
    (List.length (top_paths aggregated) <= 10)%nat /\
    StronglySorted (by_rank any_tie) (top_paths aggregated) /\
    (plain_paths (Event_find "site-abc-123" 1763164800000 1763251200000 about_then_404) ->
     StronglySorted
       (by_rank (key_tie (Event_find "site-abc-123" 1763164800000 1763251200000 about_then_404)))
       (top_paths scanned)).
Proof.
  apply (top_paths_ranked Aggregate.last_seen utc about_then_404
           (Some "site-abc-123") (Some "2025-11-15") "site-abc-123" "2025-11-15"
           1763164800000 1763251200000).
  - exact last_seen_lawful.
  - reflexivity.
  - reflexivity.
  - reflexivity.
Defined.

(* ===================================================================== *)
(** ** Where the two strategies agree *)
(* ===================================================================== *)

Lemma sum_1_snoc (key : Event -> option string) (id : option string)
  (pre : list Event) (e : Event) :
  Aggregate.sum_1 key id (pre ++ [e])
  = Aggregate.sum_1 key id pre + (if opt_eqb (key e) id then 1 else 0).
Proof.
  unfold Aggregate.sum_1. rewrite filter_app, length_app. simpl.
  destruct (opt_eqb (key e) id); simpl; lia.
Qed.

Lemma sum_1_unseen (key : Event -> option string) (id : option string) (docs : list Event) :
  ~ In id (map key docs) -> Aggregate.sum_1 key id docs = 0.
Proof.
  intros H. unfold Aggregate.sum_1.
  induction docs as [| d docs IH]; simpl; [reflexivity |].
  destruct (opt_eqb (key d) id) eqn:Hd.
  - apply opt_eqb_eq in Hd. exfalso. apply H. simpl. now left.
  - apply IH. intros Hin. apply H. simpl. now right.
Qed.

Lemma row_other (pre : list Event) (e : Event) (id : option string) :
  path e <> id -> row (pre ++ [e]) id = row pre id.
Proof.
  intros H. unfold row. rewrite sum_1_snoc.
  destruct (opt_eqb (path e) id) eqn:He; [apply opt_eqb_eq in He; contradiction |].
  now rewrite Z.add_0_r.
Qed.

Lemma rows_other (pre : list Event) (e : Event) (s : list (option string)) :
  ~ In (path e) s -> map (row (pre ++ [e])) s = map (row pre) s.
Proof.
  intros H. apply map_ext_in. intros id Hid. apply row_other. congruence.
Qed.

Lemma own_get_rows (pre : list Event) (s : list (option string)) (p : string) :
  ~ In None s ->
  Scan.own_get (map (row pre) s) p
  = if seen s (Some p) then Some (VNum (Aggregate.sum_1 path (Some p) pre)) else None.
Proof.
  intros Hs. induction s as [| [k |] s IH]; simpl; [reflexivity | |].
  - rewrite (String.eqb_sym p k). destruct (k =? p)%string eqn:Hk.
    + apply String.eqb_eq in Hk. now subst.
    + apply IH. intros H. apply Hs. now right.
  - exfalso. apply Hs. now left.
Qed.

Lemma own_set_rows_seen (pre : list Event) (e : Event) (s : list (option string)) (p : string) :
  path e = Some p -> NoDup s -> ~ In None s -> In (Some p) s ->
  Scan.own_set (map (row pre) s) p (VNum (Aggregate.sum_1 path (Some p) pre + 1))
  = map (row (pre ++ [e])) s.
Proof.
  intros Hp Hnd Hs Hin. induction s as [| [k |] s IH]; simpl.
  - destruct Hin.
  - inversion Hnd as [| ? ? Hk Hnd']; subst.
    destruct (k =? p)%string eqn:Hkp.
    + apply String.eqb_eq in Hkp. subst k.
      rewrite rows_other by now rewrite Hp.
      f_equal. unfold row. rewrite sum_1_snoc, Hp. simpl. now rewrite String.eqb_refl.
    + apply String.eqb_neq in Hkp.
      rewrite row_other by (rewrite Hp; congruence).
      f_equal. apply IH; [assumption | |].
      * intros H. apply Hs. now right.
      * destruct Hin as [H | H]; [congruence | assumption].
  - exfalso. apply Hs. now left.
Qed.

Lemma own_set_rows_unseen (o : Scan.JSObject) (p : string) (v : Views) :
  Scan.own_get o p = None -> Scan.own_set o p v = o ++ [(p, v)].
Proof.
  induction o as [| [k w] o IH]; simpl; [reflexivity |].
  destruct (k =? p)%string; [discriminate |].
  intros H. now rewrite IH.
Qed.











Lemma sorted_perm_unique (l1 l2 : list Z) :
  StronglySorted (fun a b => b <= a) l1 ->
  StronglySorted (fun a b => b <= a) l2 ->
  Permutation l1 l2 -> l1 = l2.
Proof.
  intros H1. revert l2. induction H1 as [| a l1 Hl1 IH Ha]; intros l2 H2 Hp.
  - apply Permutation_nil in Hp. now subst.
  - destruct H2 as [| b l2 Hl2 Hb].
    + apply Permutation_sym, Permutation_nil in Hp. discriminate.
    + assert (a = b).
      { rewrite Forall_forall in Ha, Hb.
        assert (Hin_b : In b (a :: l1)).
        { apply (Permutation_in b (Permutation_sym Hp)). now left. }
        assert (Hin_a : In a (b :: l2)).
        { apply (Permutation_in a Hp). now left. }
        destruct Hin_b as [-> | Hin_b]; [reflexivity |].
        destruct Hin_a as [-> | Hin_a]; [reflexivity |].
        apply Ha in Hin_b. apply Hb in Hin_a. lia. }
      subst b. f_equal. apply IH; [assumption |].
      now apply Permutation_cons_inv in Hp.
Qed.

(** Whatever the engine, the views it lists are those a stable engine
    lists. *)
Lemma views_sequence_agree (E : Aggregate.Engine) (events : list Event) :
  Aggregate.Lawful E ->
  map pv_views
    (map Aggregate.project
       (Aggregate.limit_10 (Aggregate.sort_views E (Aggregate.group_views E events))))
  = map pv_views
      (map Aggregate.project
         (Aggregate.limit_10
            (Aggregate.sort_views Aggregate.first_seen
               (Aggregate.group_views Aggregate.first_seen events)))).
Proof.
  intros HE. unfold Aggregate.limit_10.
  rewrite !map_map.
  change (fun x => pv_views (Aggregate.project x)) with (fun x : option string * Z => VNum (snd x)).
  rewrite <- !(map_map snd VNum), <- !firstn_map. f_equal. f_equal.
  apply sorted_perm_unique.
  - eapply StronglySorted_map; [| apply (Aggregate.sort_desc E HE)]. auto.
  - eapply StronglySorted_map; [| apply (Aggregate.sort_desc _ first_seen_lawful)]. auto.
  - apply Permutation_map.
    rewrite <- (Aggregate.sort_perm E HE), <- (Aggregate.sort_perm _ first_seen_lawful).
    unfold Aggregate.group_views, Aggregate.group_ids.
    cbn [Aggregate.emit Aggregate.first_seen].
    apply Permutation_map, Permutation_sym, (Aggregate.emit_perm E HE).
Qed.

Example readme_complete :
  all_users readme_events /\ ordinary_paths readme_events.
Proof. split; reflexivity. Qed.

(* ===================================================================== *)
(** ** Further properties of the reporting handlers *)
(* ===================================================================== *)

(** X1.  Either handler answers 400 "Missing required parameters" exactly
    when [site_id] or [date] is absent or empty, whatever the collection
    holds; the two handlers do so on the same requests. *)
Theorem stats_missing_parameter (E : Aggregate.Engine) (rt : Runtime) (db : Collection)
  (q_site q_date : option string) :
  (given q_site = None \/ given q_date = None
   <-> Scan.stats rt db q_site q_date = Stats400 missing_parameters) /\
  (given q_site = None \/ given q_date = None
   <-> Aggregate.stats E rt db q_site q_date = Stats400 missing_parameters).
Proof.
  unfold Scan.stats, Aggregate.stats.
  destruct (given q_site) as [site |], (given q_date) as [date |];
    try (split; split; intros; solve [reflexivity | auto]).
  destruct (window rt date) as [[lo hi] |];
    split; split; try discriminate; intros [H | H]; discriminate.
Qed.

(** X2.  On a host that keeps one offset from UTC, an event is read by the
    query of both handlers exactly when it is of the site and its timestamp
    lies in the 24 hours that start at [new Date(date)], the start included
    and the end excluded. *)
Theorem day_window_on_fixed_offset (rt : Runtime) (date site : string) (lo : Z)
  (db : Collection) (e : Event) :
  fixed_offset rt ->
  Date_parse rt date = Some lo ->
  Z.abs (lo + msPerDay) <= 8640000000000000 ->
  window rt date = Some (lo, lo + msPerDay) /\
  (In e (Event_find site lo (lo + msPerDay) db) <->
   In e db /\ site_id e = site /\ lo <= timestamp e /\ timestamp e < lo + msPerDay).
Proof.
  intros [off Hoff] Hp Hclip. split.
  - unfold window, setDate_next. rewrite Hp, !Hoff.
    replace (lo + off + msPerDay - off) with (lo + msPerDay) by lia.
    unfold TimeClip. apply Z.leb_le in Hclip. now rewrite Hclip.
  - unfold Event_find. rewrite filter_In. unfold in_range.
    rewrite !andb_true_iff, String.eqb_eq, Z.leb_le, Z.ltb_lt. tauto.
Qed.

Lemma day_window_on_fixed_offset_witness :
  window utc "2025-11-15" = Some (1763164800000, 1763164800000 + msPerDay) /\
  (In (page_view (Some "/") (Some "user-3") 1763201400000)
      (Event_find "site-abc-123" 1763164800000 (1763164800000 + msPerDay) readme_events) <->
   In (page_view (Some "/") (Some "user-3") 1763201400000) readme_events /\
   site_id (page_view (Some "/") (Some "user-3") 1763201400000) = "site-abc-123" /\
   1763164800000 <= timestamp (page_view (Some "/") (Some "user-3") 1763201400000) /\
   timestamp (page_view (Some "/") (Some "user-3") 1763201400000)
   < 1763164800000 + msPerDay).
Proof.
  apply (day_window_on_fixed_offset utc "2025-11-15" "site-abc-123" 1763164800000
           readme_events (page_view (Some "/") (Some "user-3") 1763201400000)).
  - exists 0. reflexivity.
  - reflexivity.
  - vm_compute. discriminate.
Defined.




Lemma filter_perm (A : Type) (keep : A -> bool) (xs ys : list A)
  (Hxy : Permutation xs ys) : Permutation (filter keep xs) (filter keep ys).
Proof.
  induction Hxy as [| a xs ys Hp IH | a b xs | xs ys zs H1 IH1 H2 IH2]; cbn [filter].
  - constructor.
  - destruct (keep a); [now apply perm_skip | exact IH].
  - destruct (keep a), (keep b); try reflexivity. apply perm_swap.
  - exact (Permutation_trans IH1 IH2).
Qed.

Arguments filter_perm {A} keep xs ys Hxy.

Lemma distinct_perm_length (l l' : list (option string)) :
  Permutation l l' -> List.length (distinct l) = List.length (distinct l').
Proof.
  intros Hp. apply Permutation_length, NoDup_Permutation; try apply distinct_NoDup.
  intros x. rewrite !distinct_In. split; apply Permutation_in;
    [assumption | now apply Permutation_sym].
Qed.

(** X4.  [total_views] and [unique_users] of either handler do not depend
    on the order in which the events were persisted. *)
Theorem totals_order_independent (E : Aggregate.Engine) (rt : Runtime)
  (db db' : Collection) (q_site q_date : option string) (r r' : StatsResult) :
  Aggregate.Lawful E ->
  Permutation db db' ->
  (Scan.stats rt db q_site q_date = Stats200 r /\
   Scan.stats rt db' q_site q_date = Stats200 r') \/
  (Aggregate.stats E rt db q_site q_date = Stats200 r /\
   Aggregate.stats E rt db' q_site q_date = Stats200 r') ->
  total_views r = total_views r' /\ unique_users r = unique_users r'.
Proof.
  intros HE Hp [[H H'] | [H H']].
  - apply scan_reply in H, H'.
    destruct H as (site & date & lo & hi & Hs & Hd & Hw & ->).
    destruct H' as (site' & date' & lo' & hi' & Hs' & Hd' & Hw' & ->).
    assert (site' = site) by congruence. assert (date' = date) by congruence. subst.
    assert (lo' = lo /\ hi' = hi) as [-> ->] by (split; congruence).
    cbn [total_views unique_users].
    assert (Hf : Permutation (Event_find site lo hi db) (Event_find site lo hi db'))
      by (apply filter_perm; exact Hp).
    split; [now rewrite (Permutation_length Hf) |].
    unfold Scan.unique_users_of, Scan.new_Set. f_equal.
    apply distinct_perm_length, filter_perm, Permutation_map, Hf.
  - apply aggregate_reply in H, H'.
    destruct H as (site & date & lo & hi & Hs & Hd & Hw & ->).
    destruct H' as (site' & date' & lo' & hi' & Hs' & Hd' & Hw' & ->).
    assert (site' = site) by congruence. assert (date' = date) by congruence. subst.
    assert (lo' = lo /\ hi' = hi) as [-> ->] by (split; congruence).
    cbn [total_views unique_users].
    assert (Hf : Permutation (Event_find site lo hi db) (Event_find site lo hi db'))
      by (apply filter_perm; exact Hp).
    split; [now rewrite (Permutation_length Hf) |].
    unfold Aggregate.group_ids. f_equal.
    rewrite <- !(Permutation_length (Aggregate.emit_perm E HE _)).
    apply distinct_perm_length, Permutation_map, Hf.
Qed.

Lemma totals_order_independent_witness :
  total_views readme_result
  = total_views {| res_site_id := "site-abc-123"; res_date := "2025-11-15";
                   total_views := 4; unique_users := 3;
                   top_paths :=
                     [ {| pv_path := Some "/pricing"; pv_views := VNum 2 |};
                       {| pv_path := Some "/"; pv_views := VNum 1 |};
                       {| pv_path := Some "/blog/post-1"; pv_views := VNum 1 |} ] |} /\
  unique_users readme_result
  = unique_users {| res_site_id := "site-abc-123"; res_date := "2025-11-15";
                    total_views := 4; unique_users := 3;
                    top_paths :=
                      [ {| pv_path := Some "/pricing"; pv_views := VNum 2 |};
                        {| pv_path := Some "/"; pv_views := VNum 1 |};
                        {| pv_path := Some "/blog/post-1"; pv_views := VNum 1 |} ] |}.
Proof.
  apply (totals_order_independent Aggregate.first_seen utc readme_events (rev readme_events)
           (Some "site-abc-123") (Some "2025-11-15")).
  - exact first_seen_lawful.
  - apply Permutation_rev.
  - right. split; reflexivity.
Defined.

(** *** Who is counted as a user *)

(** X5.  [unique_users] of GET /stats is the number of distinct non-empty
    [user_id] values among the events of the site and window: an event
    without [user_id], or with an empty one, adds nothing. *)
Theorem scan_unique_users_distinct (rt : Runtime) (db : Collection)
  (q_site q_date : option string) (r : StatsResult) :
  Scan.stats rt db q_site q_date = Stats200 r ->
  exists site date lo hi users,
    given q_site = Some site /\ given q_date = Some date /\
    window rt date = Some (lo, hi) /\
    NoDup users /\
    (forall u, In u users <->
               exists s, u = Some s /\ s <> ""%string /\
                         exists e, In e db /\ in_day site lo hi e /\ user_id e = Some s) /\
    unique_users r = Z.of_nat (List.length users).
Proof.
  intros H. apply scan_reply in H.
  destruct H as (site & date & lo & hi & Hs & Hd & Hw & ->).
  exists site, date, lo, hi,
    (Scan.new_Set (filter Scan.Boolean (map user_id (Event_find site lo hi db)))).
  repeat (split; [assumption |]).
  split; [apply distinct_NoDup |].
  split; [| reflexivity].
  intros u. rewrite scan_skips_missing_user. split.
  - intros (s & -> & Hne & Hin). exists s. repeat split; try assumption.
    apply in_map_iff in Hin. destruct Hin as (e & He & Hin).
    unfold Event_find in Hin. apply filter_In in Hin. destruct Hin as [Hin Hr].
    exists e. split; [assumption |]. split; [now apply in_range_in_day | assumption].
  - intros (s & -> & Hne & e & Hin & Hday & He). exists s. repeat split; try assumption.
    apply in_map_iff. exists e. split; [assumption |].
    unfold Event_find. apply filter_In. split; [assumption | now apply in_range_in_day].
Qed.

Lemma scan_unique_users_distinct_witness :
  exists site date lo hi users,
    given (Some "site-abc-123") = Some site /\ given (Some "2025-11-15") = Some date /\
    window utc date = Some (lo, hi) /\
    NoDup users /\
    (forall u, In u users <->
               exists s, u = Some s /\ s <> ""%string /\
                         exists e, In e readme_events /\ in_day site lo hi e /\
                                   user_id e = Some s) /\
    unique_users readme_result = Z.of_nat (List.length users).
Proof.
  apply (scan_unique_users_distinct utc readme_events
           (Some "site-abc-123") (Some "2025-11-15") readme_result).
  reflexivity.
Defined.

(** X6.  On the same request, GET /stats/aggregated never reports fewer
    unique users than GET /stats, and at most two more: one for the events
    without [user_id] and one for those with an empty one. *)
Theorem unique_users_gap (E : Aggregate.Engine) (rt : Runtime) (db : Collection)
  (q_site q_date : option string) (scanned aggregated : StatsResult) :
  Aggregate.Lawful E ->
  Scan.stats rt db q_site q_date = Stats200 scanned ->
  Aggregate.stats E rt db q_site q_date = Stats200 aggregated ->
  unique_users scanned <= unique_users aggregated <= unique_users scanned + 2.
Proof.
  intros HE H1 H2. apply scan_reply in H1. apply aggregate_reply in H2.
  destruct H1 as (site & date & lo & hi & Hs & Hd & Hw & ->).
  destruct H2 as (site' & date' & lo' & hi' & Hs' & Hd' & Hw' & ->).
  assert (site' = site) by congruence. assert (date' = date) by congruence. subst.
  assert (lo' = lo /\ hi' = hi) as [-> ->] by (split; congruence).
  cbn [unique_users]. unfold Scan.unique_users_of, Scan.new_Set, Aggregate.group_ids.
  rewrite <- (Permutation_length (Aggregate.emit_perm E HE _)).
  set (ids := map user_id (Event_find site lo hi db)).
  assert (Hle : (List.length (distinct (filter Scan.Boolean ids))
                 <= List.length (distinct ids))%nat).
  { apply NoDup_incl_length; [apply distinct_NoDup |].
    intros u Hu. apply distinct_In.
    apply (proj1 (distinct_In _ _)), filter_In in Hu. tauto. }
  assert (Hge : (List.length (distinct ids)
                 <= List.length (None :: Some ""%string
                                   :: distinct (filter Scan.Boolean ids)))%nat).
  { apply NoDup_incl_length; [apply distinct_NoDup |].
    intros u Hu. apply (proj1 (distinct_In _ _)) in Hu.
    destruct u as [s |]; [| now left].
    destruct (String.eqb s "") eqn:Hsb.
    - apply String.eqb_eq in Hsb. subst. right. now left.
    - right. right. apply distinct_In, filter_In. split; [assumption |].
      simpl. now rewrite Hsb. }
  simpl in Hge. lia.
Qed.

Lemma unique_users_gap_witness :
  unique_users readme_result <= unique_users readme_result <= unique_users readme_result + 2.
Proof.
  apply (unique_users_gap Aggregate.first_seen utc readme_events
           (Some "site-abc-123") (Some "2025-11-15") readme_result readme_result).
  - exact first_seen_lawful.
  - reflexivity.
  - reflexivity.
Defined.

(** *** What GET /stats never lists *)

Lemma count_path_keys (o : Scan.JSObject) (e : Event) (k : string) :
  In k (map fst (Scan.count_path o e)) ->
  In k (map fst o) \/ (path e = Some k /\ k <> ""%string /\ k <> "__proto__"%string).
Proof.
  unfold Scan.count_path. destruct (path e) as [p |]; [| tauto].
  simpl. destruct (p =? "")%string eqn:He; simpl; [tauto |].
  unfold Scan.Object_set. destruct (p =? "__proto__")%string eqn:Hp; [tauto |].
  rewrite own_set_keys. intros [-> | H]; [| tauto].
  right. repeat split; now apply String.eqb_neq.
Qed.

Lemma pathCounts_keys (events : list Event) (o : Scan.JSObject) (k : string) :
  In k (map fst (fold_left Scan.count_path events o)) ->
  In k (map fst o) \/
  (In (Some k) (map path events) /\ k <> ""%string /\ k <> "__proto__"%string).
Proof.
  revert o. induction events as [| e events IH]; intros o; simpl; [tauto |].
  intros H. apply IH in H. destruct H as [H | H]; [| tauto].
  apply count_path_keys in H. destruct H as [H | (H1 & H2 & H3)]; [tauto |].
  right. repeat split; try assumption. left. assumption.
Qed.

Lemma top_paths_of_In (events : list Event) (pv : PathViews) :
  In pv (Scan.top_paths_of events) ->
  exists kv, In kv (Scan.pathCounts_of events) /\ pv = Scan.entry kv.
Proof.
  unfold Scan.top_paths_of, Scan.slice_10. intros H.
  assert (Hin : In pv (Scan.Array_sort Scan.by_views
                         (map Scan.entry (Scan.Object_entries (Scan.pathCounts_of events))))).
  { rewrite <- (firstn_skipn 10). apply in_or_app. now left. }
  apply (proj1 (Array_sort_In any_tie _ _)), in_map_iff in Hin.
  destruct Hin as (kv & <- & Hkv). exists kv. split; [| reflexivity].
  now apply (proj1 (Object_entries_In _ _)).
Qed.

(** X9.  Whatever the events, every entry of [top_paths] of GET /stats has
    a path that is a non-empty string other than "__proto__": events without
    a path, with an empty path or with the path "__proto__" are never
    listed, though they count in [total_views]. *)
Theorem scan_lists_only_listable (rt : Runtime) (db : Collection)
  (q_site q_date : option string) (r : StatsResult) :
  Scan.stats rt db q_site q_date = Stats200 r ->
  Forall (fun pv => listable (pv_path pv)) (top_paths r).
Proof.
  intros H. apply scan_reply in H.
  destruct H as (site & date & lo & hi & _ & _ & _ & ->). cbn [top_paths].
  apply Forall_forall. intros pv Hpv.
  apply top_paths_of_In in Hpv. destruct Hpv as ([k v] & Hin & ->).
  assert (Hk : In k (map fst (Scan.pathCounts_of (Event_find site lo hi db)))).
  { apply in_map_iff. now exists (k, v). }
  apply pathCounts_keys in Hk. destruct Hk as [[] | (_ & H1 & H2)].
  exists k. repeat split; assumption.
Qed.

Lemma scan_lists_only_listable_witness :
  Forall (fun pv => listable (pv_path pv))
    (top_paths {| res_site_id := "site-abc-123"; res_date := "2025-11-15";
                  total_views := 3; unique_users := 0;
                  top_paths := [ {| pv_path := Some "/"; pv_views := VNum 1 |} ] |}).
Proof.
  apply (scan_lists_only_listable utc
           [ page_view (Some "__proto__") None 1763200800000;
             page_view (Some "") None 1763200800001;
             page_view (Some "/") None 1763200800002 ]
           (Some "site-abc-123") (Some "2025-11-15")).
  reflexivity.
Defined.

(** *** The entries of [top_paths] carry exact counts *)

Lemma insert_by_perm (x : PathViews) (l : list PathViews) :
  Permutation (x :: l) (Scan.insert_by Scan.by_views x l).
Proof.
  induction l as [| y l IH]; simpl; [reflexivity |].
  destruct (0 <? Scan.by_views x y); [| reflexivity].
  rewrite perm_swap. now constructor.
Qed.

Lemma Array_sort_perm (l : list PathViews) :
  Permutation l (Scan.Array_sort Scan.by_views l).
Proof.
  induction l as [| x l IH]; simpl; [reflexivity |].
  rewrite <- insert_by_perm. now constructor.
Qed.

Lemma insert_index_perm (x : string * Views) (l : list (string * Views)) :
  Permutation (x :: l) (Scan.insert_index x l).
Proof.
  induction l as [| y l IH]; simpl; [reflexivity |].
  destruct (Scan.index_of x <? Scan.index_of y); [reflexivity |].
  rewrite perm_swap. now constructor.
Qed.

Lemma by_index_perm (l : list (string * Views)) :
  Permutation l (fold_right Scan.insert_index [] l).
Proof.
  induction l as [| x l IH]; simpl; [reflexivity |].
  rewrite <- insert_index_perm. now constructor.
Qed.

Lemma index_keys_apart (o : Scan.JSObject) :
  Permutation (filter Scan.is_index o ++ filter (fun kv => negb (Scan.is_index kv)) o) o.
Proof.
  induction o as [| kv o IHo]; cbn [filter app]; [constructor |].
  destruct (Scan.is_index kv); cbn [negb app].
  - now apply perm_skip.
  - symmetry. apply Permutation_cons_app. now symmetry.
Qed.

Lemma Object_entries_perm (o : Scan.JSObject) :
  Permutation o (Scan.Object_entries o).
Proof.
  unfold Scan.Object_entries.
  rewrite <- by_index_perm. symmetry. apply index_keys_apart.
Qed.

Lemma NoDup_firstn {A : Type} (n : nat) (l : list A) :
  NoDup l -> NoDup (firstn n l).
Proof.
  intros H. rewrite <- (firstn_skipn n l) in H.
  now apply NoDup_app_remove_r in H.
Qed.

Lemma sum_1_seen (key : Event -> option string) (id : option string) (docs : list Event) :
  In id (map key docs) -> 1 <= Aggregate.sum_1 key id docs.
Proof.
  intros H. apply in_map_iff in H. destruct H as (d & Hd & Hin).
  unfold Aggregate.sum_1.
  assert (Hf : In d (filter (fun d => opt_eqb (key d) id) docs)).
  { apply filter_In. split; [assumption | now apply opt_eqb_eq]. }
  destruct (filter (fun d => opt_eqb (key d) id) docs); [destruct Hf | simpl; lia].
Qed.

Lemma Boolean_not_None (s : list (option string)) :
  (forall id, In id s -> Scan.Boolean id = true) -> ~ In None s.
Proof. intros H Hin. apply H in Hin. discriminate. Qed.

Lemma count_path_rows_plain (pre : list Event) (e : Event) (s : list (option string)) :
  (forall p, path e = Some p -> Scan.inherited p = false) ->
  NoDup s -> (forall id, In id s -> Scan.Boolean id = true) ->
  (forall id, In id s <-> In id (filter Scan.Boolean (map path pre))) ->
  Scan.count_path (map (row pre) s) e
  = map (row (pre ++ [e]))
      (if Scan.Boolean (path e) then add_distinct s (path e) else s).
Proof.
  intros Hplain Hnd Hb Hpre.
  pose proof (Boolean_not_None s Hb) as Hs.
  destruct (Scan.Boolean (path e)) eqn:Hbe.
  - destruct (path e) as [p |] eqn:Hp; [| discriminate].
    specialize (Hplain p eq_refl).
    unfold Scan.count_path, Scan.Object_set, Scan.next_count, add_distinct.
    rewrite Hp, Hbe.
    rewrite (not_inherited_proto p Hplain), own_get_rows by assumption.
    destruct (seen s (Some p)) eqn:Hseen.
    + apply seen_In in Hseen. now apply own_set_rows_seen.
    + rewrite own_set_rows_unseen by (rewrite own_get_rows by assumption; now rewrite Hseen).
      assert (Hout : ~ In (Some p) s).
      { intros H. apply seen_In in H. congruence. }
      rewrite Hplain, map_app. simpl. f_equal.
      * symmetry. apply rows_other. now rewrite Hp.
      * unfold row. rewrite sum_1_snoc, Hp. simpl. rewrite String.eqb_refl.
        rewrite sum_1_unseen; [reflexivity |].
        intros H. apply Hout, Hpre, filter_In. now split.
  - assert (Hsame : Scan.count_path (map (row pre) s) e = map (row pre) s).
    { unfold Scan.count_path. destruct (path e) as [p |]; [| reflexivity].
      now rewrite Hbe. }
    rewrite Hsame. symmetry. apply rows_other.
    intros H. apply Hb in H. congruence.
Qed.

Lemma fold_count_path_rows_plain (l pre : list Event) (s : list (option string)) :
  plain_paths l ->
  NoDup s -> (forall id, In id s -> Scan.Boolean id = true) ->
  (forall id, In id s <-> In id (filter Scan.Boolean (map path pre))) ->
  fold_left Scan.count_path l (map (row pre) s)
  = map (row (pre ++ l)) (fold_left add_distinct (filter Scan.Boolean (map path l)) s).
Proof.
  revert pre s. induction l as [| e l IH]; intros pre s Hl Hnd Hb Hpre; simpl.
  - now rewrite app_nil_r.
  - unfold plain_paths in Hl. simpl in Hl. apply andb_true_iff in Hl.
    destruct Hl as [He Hl].
    rewrite count_path_rows_plain; try assumption.
    2:{ intros p Hp. rewrite Hp in He. now apply negb_true_iff in He. }
    replace (pre ++ e :: l) with ((pre ++ [e]) ++ l) by now rewrite <- app_assoc.
    assert (Hfil : filter Scan.Boolean (map path (pre ++ [e]))
                   = filter Scan.Boolean (map path pre)
                     ++ (if Scan.Boolean (path e) then [path e] else [])).
    { rewrite map_app, filter_app. simpl. now destruct (Scan.Boolean (path e)). }
    destruct (Scan.Boolean (path e)) eqn:Hbe.
    + apply IH; [exact Hl | | |].
      * unfold add_distinct. destruct (seen s (path e)) eqn:Hseen; [assumption |].
        apply NoDup_app; [assumption | repeat constructor; intros [] |].
        intros a Ha [<- | []]. apply seen_In in Ha. congruence.
      * intros id. unfold add_distinct. destruct (seen s (path e)); [apply Hb |].
        rewrite in_app_iff. simpl. intros [H | [<- | []]]; [now apply Hb | assumption].
      * intros id. rewrite Hfil, in_app_iff. simpl. rewrite <- Hpre.
        unfold add_distinct. destruct (seen s (path e)) eqn:Hseen.
        -- apply seen_In in Hseen. split; [tauto |].
           intros [H | [<- | []]]; assumption.
        -- rewrite in_app_iff. simpl. tauto.
    + apply IH; try assumption.
      intros id. rewrite Hfil, app_nil_r. apply Hpre.
Qed.

Lemma pathCounts_rows_plain (events : list Event) :
  plain_paths events ->
  Scan.pathCounts_of events
  = map (row events) (distinct (filter Scan.Boolean (map path events))).
Proof.
  intros H. unfold Scan.pathCounts_of, distinct.
  apply (fold_count_path_rows_plain events [] []); try assumption.
  - constructor.
  - intros id [].
  - intros id. simpl. tauto.
Qed.

Lemma listed_paths (events : list Event) (ks : list (option string)) :
  (forall id, In id ks -> Scan.Boolean id = true) ->
  map pv_path (map Scan.entry (map (row events) ks)) = ks.
Proof.
  intros H. rewrite !map_map. rewrite <- (map_id ks) at 2.
  apply map_ext_in. intros id Hid. apply H in Hid.
  destruct id as [p |]; [reflexivity | discriminate].
Qed.

Lemma scan_top_paths_facts (events : list Event) :
  plain_paths events ->
  NoDup (map pv_path (Scan.top_paths_of events)) /\
  Forall (fun pv =>
            pv_views pv = VNum (path_views events (pv_path pv)) /\
            1 <= path_views events (pv_path pv))
         (Scan.top_paths_of events) /\
  List.length (Scan.top_paths_of events)
  = Nat.min 10 (List.length (distinct (filter Scan.Boolean (map path events)))).
Proof.
  intros Hp.
  set (ks := distinct (filter Scan.Boolean (map path events))).
  assert (Hks : forall id, In id ks -> Scan.Boolean id = true).
  { intros id Hid. apply (proj1 (distinct_In _ _)), filter_In in Hid. tauto. }
  assert (Hperm : Permutation (map Scan.entry (map (row events) ks))
                    (Scan.Array_sort Scan.by_views
                       (map Scan.entry (Scan.Object_entries (Scan.pathCounts_of events))))).
  { rewrite <- Array_sort_perm. apply Permutation_map.
    rewrite <- Object_entries_perm. now rewrite (pathCounts_rows_plain events Hp). }
  unfold Scan.top_paths_of, Scan.slice_10.
  split; [| split].
  - rewrite <- firstn_map. apply NoDup_firstn.
    apply (Permutation_NoDup (Permutation_map pv_path Hperm)).
    rewrite (listed_paths events ks Hks). apply distinct_NoDup.
  - apply Forall_forall. intros pv Hpv.
    assert (Hin : In pv (map Scan.entry (map (row events) ks))).
    { apply (Permutation_in pv (Permutation_sym Hperm)).
      rewrite <- (firstn_skipn 10). apply in_or_app. now left. }
    rewrite map_map in Hin. apply in_map_iff in Hin. destruct Hin as (id & <- & Hid).
    pose proof (Hks id Hid) as Hb.
    destruct id as [p |]; [| discriminate]. split; [reflexivity |].
    apply (sum_1_seen path (Some p) events).
    apply (proj1 (distinct_In _ _)), filter_In in Hid. tauto.
  - rewrite length_firstn, <- (Permutation_length Hperm), !length_map. reflexivity.
Qed.

(** X7.  When no event of the day has a path naming a property inherited
    from [Object.prototype], [top_paths] of GET /stats names each path at
    most once, gives for each the exact number of events of the day with
    that path (at least one), and has as many entries as there are distinct
    non-empty paths, up to 10. *)
Theorem scan_top_paths_exact (rt : Runtime) (db : Collection)
  (q_site q_date : option string) (site date : string) (lo hi : Z) :
  given q_site = Some site -> given q_date = Some date ->
  window rt date = Some (lo, hi) ->
  plain_paths (Event_find site lo hi db) ->
  exists r,
    Scan.stats rt db q_site q_date = Stats200 r /\
    NoDup (map pv_path (top_paths r)) /\
    Forall (fun pv =>
              pv_views pv = VNum (path_views (Event_find site lo hi db) (pv_path pv)) /\
              1 <= path_views (Event_find site lo hi db) (pv_path pv))
           (top_paths r) /\
    List.length (top_paths r)
    = Nat.min 10 (List.length
                    (distinct (filter Scan.Boolean (map path (Event_find site lo hi db))))).
Proof.
  intros Hs Hd Hw Hp. eexists. split.
  { unfold Scan.stats. rewrite Hs, Hd, Hw. reflexivity. }
  cbn [top_paths]. now apply scan_top_paths_facts.
Qed.

Lemma scan_top_paths_exact_witness :
  exists r,
    Scan.stats utc about_then_404 (Some "site-abc-123") (Some "2025-11-15") = Stats200 r /\
    NoDup (map pv_path (top_paths r)) /\
    Forall (fun pv =>
              pv_views pv
              = VNum (path_views
                        (Event_find "site-abc-123" 1763164800000 1763251200000 about_then_404)
                        (pv_path pv)) /\
              1 <= path_views
                     (Event_find "site-abc-123" 1763164800000 1763251200000 about_then_404)
                     (pv_path pv))
           (top_paths r) /\
    List.length (top_paths r)
    = Nat.min 10
        (List.length
           (distinct (filter Scan.Boolean
                        (map path (Event_find "site-abc-123" 1763164800000 1763251200000
                                     about_then_404))))).
Proof.
  apply (scan_top_paths_exact utc about_then_404 (Some "site-abc-123") (Some "2025-11-15")
           "site-abc-123" "2025-11-15" 1763164800000 1763251200000); reflexivity.
Defined.

Lemma aggregated_top_paths_facts (E : Aggregate.Engine) (events : list Event) :
  Aggregate.Lawful E ->
  NoDup (map pv_path
           (map Aggregate.project
              (Aggregate.limit_10 (Aggregate.sort_views E (Aggregate.group_views E events))))) /\
  Forall (fun pv =>
            pv_views pv = VNum (path_views events (pv_path pv)) /\
            1 <= path_views events (pv_path pv))
         (map Aggregate.project
            (Aggregate.limit_10 (Aggregate.sort_views E (Aggregate.group_views E events)))) /\
  List.length
    (map Aggregate.project
       (Aggregate.limit_10 (Aggregate.sort_views E (Aggregate.group_views E events))))
  = Nat.min 10 (List.length (distinct (map path events))).
Proof.
  intros HE.
  unfold Aggregate.limit_10, Aggregate.group_views, Aggregate.group_ids.
  set (ks := distinct (map path events)).
  set (G := map (fun id => (id, Aggregate.sum_1 path id events)) (Aggregate.emit E ks)).
  assert (Hfst : Permutation ks (map fst (Aggregate.sort_views E G))).
  { rewrite <- (Aggregate.sort_perm E HE G). unfold G. rewrite map_map. simpl.
    rewrite map_id. apply (Aggregate.emit_perm E HE). }
  split; [| split].
  - rewrite map_map. change (fun x => pv_path (Aggregate.project x))
      with (@fst (option string) Z).
    rewrite <- firstn_map. apply NoDup_firstn.
    apply (Permutation_NoDup Hfst), distinct_NoDup.
  - apply Forall_map, Forall_forall. intros g Hg.
    assert (Hin : In g G).
    { apply (Permutation_in g (Permutation_sym (Aggregate.sort_perm E HE G))).
      rewrite <- (firstn_skipn 10). apply in_or_app. now left. }
    unfold G in Hin. apply in_map_iff in Hin. destruct Hin as (id & <- & Hid).
    split; [reflexivity |]. simpl.
    apply (sum_1_seen path id events).
    apply (Permutation_in id (Permutation_sym (Aggregate.emit_perm E HE ks))) in Hid.
    now apply (proj1 (distinct_In _ _)) in Hid.
  - rewrite length_map, length_firstn.
    rewrite <- (Permutation_length (Aggregate.sort_perm E HE G)).
    unfold G. rewrite length_map.
    now rewrite <- (Permutation_length (Aggregate.emit_perm E HE ks)).
Qed.

(** X8.  Whatever the engine, [top_paths] of GET /stats/aggregated names
    each path at most once (the events without a path under null), gives
    for each the exact number of events of the day with that path (at least
    one), and has as many entries as there are distinct paths, up to 10. *)
Theorem aggregated_top_paths_exact (E : Aggregate.Engine) (rt : Runtime) (db : Collection)
  (q_site q_date : option string) (site date : string) (lo hi : Z) :
  Aggregate.Lawful E ->
  given q_site = Some site -> given q_date = Some date ->
  window rt date = Some (lo, hi) ->
  exists r,
    Aggregate.stats E rt db q_site q_date = Stats200 r /\
    NoDup (map pv_path (top_paths r)) /\
    Forall (fun pv =>
              pv_views pv = VNum (path_views (Event_find site lo hi db) (pv_path pv)) /\
              1 <= path_views (Event_find site lo hi db) (pv_path pv))
           (top_paths r) /\
    List.length (top_paths r)
    = Nat.min 10 (List.length (distinct (map path (Event_find site lo hi db)))).
Proof.
  intros HE Hs Hd Hw. eexists. split.
  { unfold Aggregate.stats. rewrite Hs, Hd, Hw. reflexivity. }
  unfold Aggregate.Event_aggregate. cbn [top_paths Aggregate.facet_top_paths].
  now apply aggregated_top_paths_facts.
Qed.

Lemma aggregated_top_paths_exact_witness :
  exists r,
    Aggregate.stats Aggregate.last_seen utc readme_events
      (Some "site-abc-123") (Some "2025-11-15") = Stats200 r /\
    NoDup (map pv_path (top_paths r)) /\
    Forall (fun pv =>
              pv_views pv
              = VNum (path_views
                        (Event_find "site-abc-123" 1763164800000 1763251200000 readme_events)
                        (pv_path pv)) /\
              1 <= path_views
                     (Event_find "site-abc-123" 1763164800000 1763251200000 readme_events)
                     (pv_path pv))
           (top_paths r) /\
    List.length (top_paths r)
    = Nat.min 10
        (List.length
           (distinct (map path (Event_find "site-abc-123" 1763164800000 1763251200000
                                  readme_events)))).
Proof.
  apply (aggregated_top_paths_exact Aggregate.last_seen utc readme_events
           (Some "site-abc-123") (Some "2025-11-15") "site-abc-123" "2025-11-15"
           1763164800000 1763251200000).
  - exact last_seen_lawful.
  - reflexivity.
  - reflexivity.
  - reflexivity.
Defined.

(* ===================================================================== *)
(** ** Further properties of POST /event and of the worker *)
(* ===================================================================== *)

Lemma complete_body_missing (body : Ingestion.Body) :
  complete_body body = true <-> missing_fields body = [].
Proof.
  rewrite missing_fields_nil. unfold complete_body.
  rewrite !andb_true_iff. tauto.
Qed.

Lemma post_event_cases (body : Ingestion.Body) (q : Ingestion.Queue) :
  Ingestion.post_event body q =
  if complete_body body
  then if Ingestion.reachable q
       then (Ingestion.accepted,
             {| Ingestion.reachable := true;
                Ingestion.jobs := Ingestion.jobs q ++ [job_of body];
                Ingestion.add_calls := S (Ingestion.add_calls q) |})
       else (Ingestion.failed,
             {| Ingestion.reachable := false;
                Ingestion.jobs := Ingestion.jobs q;
                Ingestion.add_calls := S (Ingestion.add_calls q) |})
  else (Ingestion.rejected, q).
Proof.
  unfold Ingestion.post_event, complete_body, Ingestion.Queue_add, job_of.
  destruct (truthy (Ingestion.body_site_id body)),
    (truthy (Ingestion.body_event_type body)),
    (truthy (Ingestion.body_timestamp body)); simpl; try reflexivity.
  now destruct (Ingestion.reachable q).
Qed.

(** X10.  POST /event answers "accepted" exactly when [site_id],
    [event_type] and [timestamp] are present and the queue takes the
    submission, whatever [path] and [user_id] hold.  Then the queue has
    gained one job, carrying the five fields as they came; in every other
    case the jobs of the queue are as they were.  [add] is called at most
    once. *)
Theorem post_event_outcomes (body : Ingestion.Body) (q : Ingestion.Queue) :
  (fst (Ingestion.post_event body q) = Ingestion.accepted
   <-> missing_fields body = [] /\ Ingestion.reachable q = true) /\
  (fst (Ingestion.post_event body q) = Ingestion.accepted ->
   Ingestion.jobs (snd (Ingestion.post_event body q)) = Ingestion.jobs q ++ [job_of body]) /\
  (fst (Ingestion.post_event body q) <> Ingestion.accepted ->
   Ingestion.jobs (snd (Ingestion.post_event body q)) = Ingestion.jobs q) /\
  Ingestion.reachable (snd (Ingestion.post_event body q)) = Ingestion.reachable q /\
  (Ingestion.add_calls q <= Ingestion.add_calls (snd (Ingestion.post_event body q))
   <= S (Ingestion.add_calls q))%nat.
Proof.
  rewrite post_event_cases, <- complete_body_missing.
  destruct (complete_body body), (Ingestion.reachable q) eqn:Hr; simpl;
    repeat split; try discriminate; try reflexivity; try lia; try tauto;
    try (intros [H1 H2]; discriminate); try (intros H; now destruct H).
Qed.

(** X15.  While the queue takes submissions, a series of requests leaves
    in the queue, behind the jobs it held, one job for each body that has
    the three required fields, in the order of arrival and each as it came;
    [add] was called once for each of them. *)
Theorem queue_holds_complete_bodies (bodies : list Ingestion.Body) (q : Ingestion.Queue) :
  Ingestion.reachable q = true ->
  Ingestion.jobs (post_all bodies q)
  = Ingestion.jobs q ++ map job_of (filter complete_body bodies) /\
  Ingestion.add_calls (post_all bodies q)
  = (Ingestion.add_calls q + List.length (filter complete_body bodies))%nat /\
  Ingestion.reachable (post_all bodies q) = true.
Proof.
  revert q. induction bodies as [| body bodies IH]; intros q Hr; simpl.
  - rewrite app_nil_r. repeat split; [lia | assumption].
  - unfold post_all in *. simpl. rewrite post_event_cases, Hr.
    destruct (complete_body body); simpl.
    + destruct (IH {| Ingestion.reachable := true;
                      Ingestion.jobs := Ingestion.jobs q ++ [job_of body];
                      Ingestion.add_calls := S (Ingestion.add_calls q) |} eq_refl)
        as (H1 & H2 & H3).
      rewrite H1, H2, H3. simpl. rewrite <- app_assoc. simpl.
      repeat split. lia.
    + now apply IH.
Qed.

Lemma queue_holds_complete_bodies_witness :
  Ingestion.jobs
    (post_all [ page_view_body (JStr "2025-11-15T10:00:00Z"); no_event_type;
                page_view_body (JStr "not-a-date") ] (idle_queue true))
  = Ingestion.jobs (idle_queue true)
    ++ map job_of
         (filter complete_body
            [ page_view_body (JStr "2025-11-15T10:00:00Z"); no_event_type;
              page_view_body (JStr "not-a-date") ]) /\
  Ingestion.add_calls
    (post_all [ page_view_body (JStr "2025-11-15T10:00:00Z"); no_event_type;
                page_view_body (JStr "not-a-date") ] (idle_queue true))
  = (Ingestion.add_calls (idle_queue true)
     + List.length
         (filter complete_body
            [ page_view_body (JStr "2025-11-15T10:00:00Z"); no_event_type;
              page_view_body (JStr "not-a-date") ]))%nat /\
  Ingestion.reachable
    (post_all [ page_view_body (JStr "2025-11-15T10:00:00Z"); no_event_type;
                page_view_body (JStr "not-a-date") ] (idle_queue true)) = true.
Proof.
  apply (queue_holds_complete_bodies
           [ page_view_body (JStr "2025-11-15T10:00:00Z"); no_event_type;
             page_view_body (JStr "not-a-date") ] (idle_queue true)).
  reflexivity.
Defined.

Lemma process_cases (rt : Runtime) (db_up : bool) (job : Ingestion.Job) (db : Collection) :
  (exists e,
     Worker.validate (Worker.new_Event rt (Ingestion.job_data job)) = Some e /\
     db_up = true /\
     Worker.process rt db_up job db = (Worker.Completed, db ++ [e])) \/
  ((Worker.validate (Worker.new_Event rt (Ingestion.job_data job)) = None \/ db_up = false) /\
   Worker.process rt db_up job db = (Worker.Failed, db)).
Proof.
  unfold Worker.process, Worker.Event_save.
  destruct (Worker.validate (Worker.new_Event rt (Ingestion.job_data job))) as [e |].
  - destruct db_up; [left; now exists e | right; split; [now right | reflexivity]].
  - right. split; [now left | reflexivity].
Qed.

Lemma Number_toString_not_empty (n : Z) : Number_toString n <> ""%string.
Proof.
  unfold Number_toString, NilZero.string_of_int.
  destruct (Z.to_int n) as [d | d]; [| discriminate].
  destruct d; discriminate.
Qed.

Lemma truthy_required (v : JSValue) :
  truthy v = true ->
  exists s, Worker.cast_String v = Some s /\ s <> ""%string /\
            Worker.required_String (Worker.cast_String v) = Some s.
Proof.
  destruct v as [| | b | n | s]; simpl; try discriminate.
  - intros ->. exists "true"%string. repeat split. discriminate.
  - intros _. exists (Number_toString n).
    pose proof (Number_toString_not_empty n) as H. apply String.eqb_neq in H.
    rewrite H. repeat split. now apply String.eqb_neq.
  - intros H. apply negb_true_iff in H. rewrite H. exists s.
    repeat split. now apply String.eqb_neq.
Qed.

Lemma cast_optional_text (v : JSValue) :
  optional_text v -> Worker.cast_String v = text_of v.
Proof. intros [-> | [-> | [s ->]]]; reflexivity. Qed.

(** X12.  A body whose [site_id], [event_type] and [timestamp] are texts and
    whose [path] and [user_id] are each a text, null or left out, once
    POST /event has accepted it, is persisted by the worker, when the
    database is up, if and only if its [timestamp] parses to a date:
    [site_id] and [event_type] are not empty and pass.  The event written
    holds that date and the texts of the body as they are, and nothing else
    changes in the collection; the job fails and nothing is written
    otherwise. *)
Theorem accepted_body_persisted (rt : Runtime) (body : Ingestion.Body)
  (q q' : Ingestion.Queue) (db : Collection) (site type ts : string) :
  Ingestion.body_site_id body = JStr site ->
  Ingestion.body_event_type body = JStr type ->
  Ingestion.body_timestamp body = JStr ts ->
  optional_text (Ingestion.body_path body) ->
  optional_text (Ingestion.body_user_id body) ->
  Ingestion.post_event body q = (Ingestion.accepted, q') ->
  Ingestion.jobs q' = Ingestion.jobs q ++ [job_of body] /\
  site <> ""%string /\ type <> ""%string /\
  match Date_parse rt ts with
  | Some t =>
      Worker.process rt true (job_of body) db
      = (Worker.Completed,
         db ++ [ {| site_id := site; event_type := type;
                    path := text_of (Ingestion.body_path body);
                    user_id := text_of (Ingestion.body_user_id body);
                    timestamp := t |} ])
  | None => Worker.process rt true (job_of body) db = (Worker.Failed, db)
  end.
Proof.
  intros Hsite Htype Hts Hp Hu.
  rewrite post_event_cases.
  destruct (complete_body body) eqn:Hc; [| discriminate].
  destruct (Ingestion.reachable q); [| discriminate].
  intros [= <-]. split; [reflexivity |].
  unfold complete_body in Hc. apply andb_true_iff in Hc. destruct Hc as [Hc _].
  apply andb_true_iff in Hc. destruct Hc as [H1 H2].
  rewrite Hsite in H1. rewrite Htype in H2. simpl in H1, H2.
  apply negb_true_iff in H1, H2.
  split; [now apply String.eqb_neq |]. split; [now apply String.eqb_neq |].
  unfold Worker.process, Worker.Event_save, Worker.validate, Worker.new_Event, job_of.
  cbn [Ingestion.job_data Worker.doc_site_id Worker.doc_event_type Worker.doc_timestamp
       Worker.doc_path Worker.doc_user_id].
  rewrite Hsite, Htype, Hts, (cast_optional_text _ Hp), (cast_optional_text _ Hu).
  cbn [Worker.cast_String Worker.required_String new_Date].
  rewrite H1, H2.
  destruct (Date_parse rt ts) as [t |]; reflexivity.
Qed.

Lemma accepted_body_persisted_witness :
  Ingestion.jobs
    {| Ingestion.reachable := true;
       Ingestion.jobs := [ job_of (page_view_body (JStr "2025-11-15T10:00:00Z")) ];
       Ingestion.add_calls := 1 |}
  = Ingestion.jobs (idle_queue true) ++ [ job_of (page_view_body (JStr "2025-11-15T10:00:00Z")) ] /\
  "site-abc-123"%string <> ""%string /\ "page_view"%string <> ""%string /\
  match Date_parse utc "2025-11-15T10:00:00Z" with
  | Some t =>
      Worker.process utc true (job_of (page_view_body (JStr "2025-11-15T10:00:00Z")))
        readme_events
      = (Worker.Completed,
         readme_events ++
         [ {| site_id := "site-abc-123"; event_type := "page_view";
              path := text_of (Ingestion.body_path
                                 (page_view_body (JStr "2025-11-15T10:00:00Z")));
              user_id := text_of (Ingestion.body_user_id
                                    (page_view_body (JStr "2025-11-15T10:00:00Z")));
              timestamp := t |} ])
  | None =>
      Worker.process utc true (job_of (page_view_body (JStr "2025-11-15T10:00:00Z")))
        readme_events = (Worker.Failed, readme_events)
  end.
Proof.
  apply (accepted_body_persisted utc (page_view_body (JStr "2025-11-15T10:00:00Z"))
           (idle_queue true)
           {| Ingestion.reachable := true;
              Ingestion.jobs := [ job_of (page_view_body (JStr "2025-11-15T10:00:00Z")) ];
              Ingestion.add_calls := 1 |}
           readme_events "site-abc-123" "page_view" "2025-11-15T10:00:00Z").
  - reflexivity.
  - reflexivity.
  - reflexivity.
  - right. right. exists "/pricing"%string. reflexivity.
  - right. right. exists "user-1"%string. reflexivity.
  - reflexivity.
Defined.

Lemma validate_well_formed (doc : Worker.Document) (e : Event) :
  Worker.validate doc = Some e ->
  site_id e <> ""%string /\ event_type e <> ""%string.
Proof.
  unfold Worker.validate, Worker.required_String.
  destruct (Worker.doc_site_id doc) as [s1 |]; [| discriminate].
  destruct (s1 =? "")%string eqn:H1; [discriminate |].
  destruct (Worker.doc_event_type doc) as [s2 |]; [| discriminate].
  destruct (s2 =? "")%string eqn:H2; [discriminate |].
  destruct (Worker.doc_timestamp doc); [| discriminate].
  intros [= <-]. simpl. split; now apply String.eqb_neq.
Qed.

(** X13.  Whatever jobs the worker runs, in whatever order and whether or
    not the database is up at each of them, the collection only grows at
    its end, by at most one event per job, and if every event it held had a
    non-empty [site_id] and [event_type] then so has every event it
    holds afterwards. *)
Theorem worker_keeps_collection (rt : Runtime) (runs : list (bool * Ingestion.Job))
  (db : Collection) :
  exists written,
    process_all rt runs db = db ++ written /\
    (List.length written <= List.length runs)%nat /\
    well_formed written /\
    (well_formed db -> well_formed (process_all rt runs db)).
Proof.
  revert db. induction runs as [| [up job] runs IH]; intros db.
  - exists []. simpl. rewrite app_nil_r. repeat split; auto. constructor.
  - unfold process_all in *. simpl.
    destruct (process_cases rt up job db) as [(e & Hv & _ & Hp) | (_ & Hp)]; rewrite Hp; simpl.
    + destruct (IH (db ++ [e])) as (written & Hw & Hlen & Hwf & _).
      exists (e :: written). rewrite Hw, <- app_assoc. simpl.
      assert (Hall : well_formed (e :: written)).
      { constructor; [| exact Hwf]. exact (validate_well_formed _ _ Hv). }
      repeat split; [lia | exact Hall |].
      intros Hdb. apply Forall_app. now split.
    + destruct (IH db) as (written & Hw & Hlen & Hwf & Hkeep).
      exists written. repeat split; try assumption. lia.
Qed.

(** X14.  Nothing in the worker recognises a job it has already run: a job
    whose payload passes the validation, run twice while the database is up,
    completes twice and leaves the same event twice in the collection. *)
Theorem redelivery_writes_again (rt : Runtime) (job : Ingestion.Job)
  (db : Collection) (e : Event) :
  Worker.validate (Worker.new_Event rt (Ingestion.job_data job)) = Some e ->
  Worker.process rt true job db = (Worker.Completed, db ++ [e]) /\
  Worker.process rt true job (db ++ [e]) = (Worker.Completed, db ++ [e; e]).
Proof.
  intros Hv. unfold Worker.process, Worker.Event_save. rewrite Hv.
  split; [reflexivity |]. now rewrite <- app_assoc.
Qed.

Lemma redelivery_writes_again_witness :
  Worker.process utc true (job_of (page_view_body (JStr "2025-11-15T10:00:00Z"))) []
  = (Worker.Completed, [] ++ [ page_view (Some "/pricing") (Some "user-1") 1763200800000 ]) /\
  Worker.process utc true (job_of (page_view_body (JStr "2025-11-15T10:00:00Z")))
    ([] ++ [ page_view (Some "/pricing") (Some "user-1") 1763200800000 ])
  = (Worker.Completed,
     [] ++ [ page_view (Some "/pricing") (Some "user-1") 1763200800000;
             page_view (Some "/pricing") (Some "user-1") 1763200800000 ]).
Proof.
  apply (redelivery_writes_again utc (job_of (page_view_body (JStr "2025-11-15T10:00:00Z")))
           [] (page_view (Some "/pricing") (Some "user-1") 1763200800000)).
  reflexivity.
Defined.

(* ===================================================================== *)
(** ** How the reports follow the collection *)
(* ===================================================================== *)

Lemma distinct_snoc (l : list (option string)) (x : option string) :
  distinct (l ++ [x]) = add_distinct (distinct l) x.
Proof. unfold distinct. now rewrite fold_left_app. Qed.

Lemma add_distinct_grows (s : list (option string)) (x : option string) :
  (List.length s <= List.length (add_distinct s x) <= S (List.length s))%nat.
Proof.
  unfold add_distinct. destruct (seen s x); [lia |].
  rewrite length_app. simpl. lia.
Qed.

Lemma Event_find_snoc (site : string) (lo hi : Z) (db : Collection) (e : Event) :
  in_day site lo hi e ->
  Event_find site lo hi (db ++ [e]) = Event_find site lo hi db ++ [e].
Proof.
  intros H. apply in_range_in_day in H.
  unfold Event_find. rewrite filter_app. simpl. now rewrite H.
Qed.

Lemma counts_after_write (E : Aggregate.Engine) (rt : Runtime) (db : Collection)
  (e : Event) (q_site q_date : option string) (site date : string) (lo hi : Z)
  (r r' : StatsResult) :
  Aggregate.Lawful E ->
  given q_site = Some site -> given q_date = Some date ->
  window rt date = Some (lo, hi) ->
  in_day site lo hi e ->
  (Scan.stats rt db q_site q_date = Stats200 r /\
   Scan.stats rt (db ++ [e]) q_site q_date = Stats200 r') \/
  (Aggregate.stats E rt db q_site q_date = Stats200 r /\
   Aggregate.stats E rt (db ++ [e]) q_site q_date = Stats200 r') ->
  total_views r' = total_views r + 1 /\
  unique_users r <= unique_users r' <= unique_users r + 1.
Proof.
  intros HE Hs Hd Hw He [[H H'] | [H H']].
  - apply scan_reply in H, H'.
    destruct H as (s1 & d1 & lo1 & hi1 & Hs1 & Hd1 & Hw1 & ->).
    destruct H' as (s2 & d2 & lo2 & hi2 & Hs2 & Hd2 & Hw2 & ->).
    assert (s1 = site) by congruence. assert (s2 = site) by congruence.
    assert (d1 = date) by congruence. assert (d2 = date) by congruence. subst.
    assert (lo1 = lo /\ hi1 = hi) as [-> ->] by (split; congruence).
    assert (lo2 = lo /\ hi2 = hi) as [-> ->] by (split; congruence).
    cbn [total_views unique_users].
    rewrite (Event_find_snoc site lo hi db e He).
    split; [rewrite length_app; simpl; lia |].
    unfold Scan.unique_users_of, Scan.new_Set.
    rewrite map_app, filter_app. simpl.
    destruct (Scan.Boolean (user_id e)).
    + rewrite distinct_snoc.
      pose proof (add_distinct_grows
                    (distinct (filter Scan.Boolean (map user_id (Event_find site lo hi db))))
                    (user_id e)).
      lia.
    + rewrite app_nil_r. lia.
  - apply aggregate_reply in H, H'.
    destruct H as (s1 & d1 & lo1 & hi1 & Hs1 & Hd1 & Hw1 & ->).
    destruct H' as (s2 & d2 & lo2 & hi2 & Hs2 & Hd2 & Hw2 & ->).
    assert (s1 = site) by congruence. assert (s2 = site) by congruence.
    assert (d1 = date) by congruence. assert (d2 = date) by congruence. subst.
    assert (lo1 = lo /\ hi1 = hi) as [-> ->] by (split; congruence).
    assert (lo2 = lo /\ hi2 = hi) as [-> ->] by (split; congruence).
    cbn [total_views unique_users].
    rewrite (Event_find_snoc site lo hi db e He).
    split; [rewrite length_app; simpl; lia |].
    unfold Aggregate.group_ids.
    rewrite <- !(Permutation_length (Aggregate.emit_perm E HE _)).
    rewrite map_app. simpl. rewrite distinct_snoc.
    pose proof (add_distinct_grows (distinct (map user_id (Event_find site lo hi db)))
                  (user_id e)).
    lia.
Qed.

(** X16.  Once an event of the site with a timestamp inside the window has
    been written, either handler reports one more view for that day, and as
    many unique users as before or one more. *)
Theorem new_event_counted (E : Aggregate.Engine) (rt : Runtime) (db : Collection)
  (e : Event) (q_site q_date : option string) (site date : string) (lo hi : Z)
  (r r' : StatsResult) :
  Aggregate.Lawful E ->
  given q_site = Some site -> given q_date = Some date ->
  window rt date = Some (lo, hi) ->
  in_day site lo hi e ->
  (Scan.stats rt db q_site q_date = Stats200 r /\
   Scan.stats rt (db ++ [e]) q_site q_date = Stats200 r') \/
  (Aggregate.stats E rt db q_site q_date = Stats200 r /\
   Aggregate.stats E rt (db ++ [e]) q_site q_date = Stats200 r') ->
  total_views r' = total_views r + 1 /\
  unique_users r <= unique_users r' <= unique_users r + 1.
Proof. apply counts_after_write. Qed.

Lemma new_event_counted_witness :
  total_views readme_result
  = total_views {| res_site_id := "site-abc-123"; res_date := "2025-11-15";
                   total_views := 3; unique_users := 3;
                   top_paths :=
                     [ {| pv_path := Some "/pricing"; pv_views := VNum 1 |};
                       {| pv_path := Some "/blog/post-1"; pv_views := VNum 1 |};
                       {| pv_path := Some "/"; pv_views := VNum 1 |} ] |} + 1 /\
  unique_users {| res_site_id := "site-abc-123"; res_date := "2025-11-15";
                  total_views := 3; unique_users := 3;
                  top_paths :=
                    [ {| pv_path := Some "/pricing"; pv_views := VNum 1 |};
                      {| pv_path := Some "/blog/post-1"; pv_views := VNum 1 |};
                      {| pv_path := Some "/"; pv_views := VNum 1 |} ] |}
  <= unique_users readme_result
  <= unique_users {| res_site_id := "site-abc-123"; res_date := "2025-11-15";
                     total_views := 3; unique_users := 3;
                     top_paths :=
                       [ {| pv_path := Some "/pricing"; pv_views := VNum 1 |};
                         {| pv_path := Some "/blog/post-1"; pv_views := VNum 1 |};
                         {| pv_path := Some "/"; pv_views := VNum 1 |} ] |} + 1.
Proof.
  apply (new_event_counted Aggregate.first_seen utc (firstn 3 readme_events)
           (page_view (Some "/pricing") (Some "user-1") 1763201700000)
           (Some "site-abc-123") (Some "2025-11-15") "site-abc-123" "2025-11-15"
           1763164800000 1763251200000).
  - exact first_seen_lawful.
  - reflexivity.
  - reflexivity.
  - reflexivity.
  - unfold in_day. simpl. repeat split; lia.
  - left. split; reflexivity.
Defined.

(** *** The views listed stay within [total_views] *)

Lemma path_views_cons (e : Event) (events : list Event) (k : option string) :
  path_views (e :: events) k
  = (if opt_eqb (path e) k then 1 else 0) + path_views events k.
Proof.
  unfold path_views. simpl. destruct (opt_eqb (path e) k); simpl List.length; lia.
Qed.

Lemma indicator_total (x : option string) (ks : list (option string)) :
  NoDup ks ->
  0 <= fold_right (fun k acc => (if opt_eqb x k then 1 else 0) + acc) 0 ks <= 1.
Proof.
  induction 1 as [| k ks Hk Hnd IH]; simpl; [lia |].
  destruct (opt_eqb x k) eqn:Hx; [| lia].
  apply opt_eqb_eq in Hx. subst k.
  assert (Hz : fold_right (fun k acc => (if opt_eqb x k then 1 else 0) + acc) 0 ks = 0).
  { clear IH Hnd. induction ks as [| k ks IHks]; simpl; [reflexivity |].
    destruct (opt_eqb x k) eqn:Hxk.
    - apply opt_eqb_eq in Hxk. subst. exfalso. apply Hk. now left.
    - rewrite IHks; [reflexivity |]. intros H. apply Hk. now right. }
  lia.
Qed.

Lemma path_views_total (events : list Event) (ks : list (option string)) :
  NoDup ks ->
  fold_right (fun k acc => path_views events k + acc) 0 ks
  <= Z.of_nat (List.length events).
Proof.
  intros Hnd. induction events as [| e events IH].
  - assert (H0 : fold_right (fun k acc => path_views [] k + acc) 0 ks = 0).
    { clear Hnd. induction ks as [| k ks IHks]; cbn [fold_right]; [reflexivity |].
      rewrite IHks. reflexivity. }
    rewrite H0. simpl. lia.
  - assert (Hsplit :
      fold_right (fun k acc => path_views (e :: events) k + acc) 0 ks
      = fold_right (fun k acc => (if opt_eqb (path e) k then 1 else 0) + acc) 0 ks
        + fold_right (fun k acc => path_views events k + acc) 0 ks).
    { clear Hnd IH. induction ks as [| k ks IHks]; cbn [fold_right]; [reflexivity |].
      rewrite IHks, path_views_cons. lia. }
    rewrite Hsplit. pose proof (indicator_total (path e) ks Hnd).
    simpl List.length. lia.
Qed.

Lemma views_total_exact (events : list Event) (l : list PathViews) :
  Forall (fun pv =>
            pv_views pv = VNum (path_views events (pv_path pv)) /\
            1 <= path_views events (pv_path pv)) l ->
  views_total l = fold_right (fun k acc => path_views events k + acc) 0 (map pv_path l).
Proof.
  induction 1 as [| pv l [Hpv _] Hl IH]; simpl; [reflexivity |].
  now rewrite Hpv, IH.
Qed.

(** X18.  The views listed in [top_paths] never add up to more than
    [total_views]: for GET /stats/aggregated whatever the engine, and for
    GET /stats when no path of the day names a property inherited from
    [Object.prototype]. *)
Theorem listed_views_within_total (E : Aggregate.Engine) (rt : Runtime) (db : Collection)
  (q_site q_date : option string) (site date : string) (lo hi : Z) :
  Aggregate.Lawful E ->
  given q_site = Some site -> given q_date = Some date ->
  window rt date = Some (lo, hi) ->
  exists scanned aggregated,
    Scan.stats rt db q_site q_date = Stats200 scanned /\
    Aggregate.stats E rt db q_site q_date = Stats200 aggregated /\
    views_total (top_paths aggregated) <= total_views aggregated /\
    (plain_paths (Event_find site lo hi db) ->
     views_total (top_paths scanned) <= total_views scanned).
Proof.
  intros HE Hs Hd Hw. eexists. eexists.
  split; [unfold Scan.stats; rewrite Hs, Hd, Hw; reflexivity |].
  split; [unfold Aggregate.stats; rewrite Hs, Hd, Hw; reflexivity |].
  unfold Aggregate.Event_aggregate, Aggregate.first_of.
  cbn [top_paths total_views Aggregate.facet_top_paths Aggregate.total].
  rewrite count_or_0. fold (Event_find site lo hi db).
  split.
  - destruct (aggregated_top_paths_facts E (Event_find site lo hi db) HE) as (Hnd & Hex & _).
    rewrite (views_total_exact _ _ Hex). now apply path_views_total.
  - intros Hp.
    destruct (scan_top_paths_facts (Event_find site lo hi db) Hp) as (Hnd & Hex & _).
    rewrite (views_total_exact _ _ Hex). now apply path_views_total.
Qed.

Lemma listed_views_within_total_witness :
  exists scanned aggregated,
    Scan.stats utc readme_events (Some "site-abc-123") (Some "2025-11-15")
    = Stats200 scanned /\
    Aggregate.stats Aggregate.last_seen utc readme_events
      (Some "site-abc-123") (Some "2025-11-15") = Stats200 aggregated /\
    views_total (top_paths aggregated) <= total_views aggregated /\
    (plain_paths (Event_find "site-abc-123" 1763164800000 1763251200000 readme_events) ->
     views_total (top_paths scanned) <= total_views scanned).
Proof.
  apply (listed_views_within_total Aggregate.last_seen utc readme_events
           (Some "site-abc-123") (Some "2025-11-15") "site-abc-123" "2025-11-15"
           1763164800000 1763251200000).
  - exact last_seen_lawful.
  - reflexivity.
  - reflexivity.
  - reflexivity.
Defined.

(* ===================================================================== *)
(** ** From the request to the report *)
(* ===================================================================== *)



(* ===================================================================== *)
(** ** Paths named like inherited properties *)
(* ===================================================================== *)

Lemma own_get_own_set (o : Scan.JSObject) (k k' : string) (v : Views) :
  Scan.own_get (Scan.own_set o k v) k'
  = if (k =? k')%string then Some v else Scan.own_get o k'.
Proof.
  induction o as [| [k0 v0] o IH]; simpl.
  - reflexivity.
  - destruct (k0 =? k)%string eqn:H0; simpl.
    + apply String.eqb_eq in H0. subst k0.
      now destruct (k =? k')%string.
    + rewrite IH. destruct (k0 =? k')%string eqn:H1; [| reflexivity].
      apply String.eqb_eq in H1. subst k0. now rewrite String.eqb_sym, H0.
Qed.

Lemma append_1_not_empty (s : string) : String.append s "1" <> ""%string.
Proof. destruct s; discriminate. Qed.

Lemma count_path_text (o : Scan.JSObject) (e : Event) (p : string) :
  Scan.inherited p = true -> p <> "__proto__"%string ->
  text_or_nothing o p ->
  text_or_nothing (Scan.count_path o e) p /\
  (path e = Some p ->
   exists s, Scan.own_get (Scan.count_path o e) p = Some (VText s) /\ s <> ""%string).
Proof.
  intros Hinh Hproto Ho.
  assert (Hne : p <> ""%string) by (intros ->; discriminate).
  unfold text_or_nothing in *. unfold Scan.count_path.
  destruct (path e) as [p' |]; [| split; [assumption | discriminate]].
  simpl. destruct (p' =? "")%string eqn:Hp'; simpl.
  { apply String.eqb_eq in Hp'. split; [assumption | congruence]. }
  unfold Scan.Object_set. destruct (p' =? "__proto__")%string eqn:Hpp.
  { apply String.eqb_eq in Hpp. split; [assumption | congruence]. }
  rewrite own_get_own_set. destruct (p' =? p)%string eqn:Heq.
  - apply String.eqb_eq in Heq. subst p'.
    assert (Hv : exists s, Scan.next_count o p = VText s /\ s <> ""%string).
    { unfold Scan.next_count. destruct Ho as [-> | (s & -> & Hs)].
      - rewrite Hinh. eexists. split; [reflexivity | apply append_1_not_empty].
      - apply String.eqb_neq in Hs. rewrite Hs.
        eexists. split; [reflexivity | apply append_1_not_empty]. }
    destruct Hv as (s & -> & Hs).
    split; [right; exists s; now split | intros _; exists s; now split].
  - split; [assumption |]. intros [= ->]. now rewrite String.eqb_refl in Heq.
Qed.

Lemma fold_count_path_text (events : list Event) (o : Scan.JSObject) (p : string) :
  Scan.inherited p = true -> p <> "__proto__"%string ->
  text_or_nothing o p ->
  text_or_nothing (fold_left Scan.count_path events o) p /\
  ((In (Some p) (map path events) \/ Scan.own_get o p <> None) ->
   exists s, Scan.own_get (fold_left Scan.count_path events o) p = Some (VText s)).
Proof.
  intros Hinh Hproto. revert o.
  induction events as [| e events IH]; intros o Ho; simpl.
  - split; [assumption |]. intros [[] | H].
    destruct Ho as [Ho | (s & Ho & _)]; [contradiction | eauto].
  - destruct (count_path_text o e p Hinh Hproto Ho) as [Hstep Hnew].
    destruct (IH _ Hstep) as [Hall Hlater]. split; [assumption |].
    intros [[He | Hin] | Hown]; apply Hlater.
    + right. destruct (Hnew He) as (s & -> & _). discriminate.
    + now left.
    + right. destruct Ho as [Ho | (s & Ho & Hs)]; [contradiction |].
      destruct (count_path_text o e p Hinh Hproto (or_intror (ex_intro _ s (conj Ho Hs))))
        as [[Hn | (s' & -> & _)] _]; [| discriminate].
      exfalso.
      unfold Scan.count_path in Hn. destruct (path e) as [p' |]; [| congruence].
      destruct (Scan.Boolean (Some p')); [| congruence].
      unfold Scan.Object_set in Hn. destruct (p' =? "__proto__")%string; [congruence |].
      rewrite own_get_own_set in Hn. destruct (p' =? p)%string; congruence.
Qed.

(** X17.  When an event of the day has a path that names a property a plain
    object inherits (such as "constructor" or "toString", "__proto__"
    apart), GET /stats does not count it with a number: unless ten other
    entries fill [top_paths], that path is listed with a text for its
    [views]. *)
Theorem inherited_path_gets_text (rt : Runtime) (db : Collection)
  (q_site q_date : option string) (site date p : string) (lo hi : Z) (e : Event) :
  given q_site = Some site -> given q_date = Some date ->
  window rt date = Some (lo, hi) ->
  In e db -> in_day site lo hi e -> path e = Some p ->
  Scan.inherited p = true -> p <> "__proto__"%string ->
  exists r,
    Scan.stats rt db q_site q_date = Stats200 r /\
    (List.length (top_paths r) = 10%nat \/
     exists s, In {| pv_path := Some p; pv_views := VText s |} (top_paths r)).
Proof.
  intros Hs Hd Hw Hin Hday Hp Hinh Hproto. eexists. split.
  { unfold Scan.stats. rewrite Hs, Hd, Hw. reflexivity. }
  cbn [top_paths]. set (events := Event_find site lo hi db).
  assert (Hev : In (Some p) (map path events)).
  { apply in_map_iff. exists e. split; [assumption |].
    unfold events, Event_find. apply filter_In. split; [assumption |].
    now apply in_range_in_day. }
  destruct (fold_count_path_text events [] p Hinh Hproto (or_introl eq_refl)) as [_ Htext].
  destruct (Htext (or_introl Hev)) as (s & Hget).
  fold (Scan.pathCounts_of events) in Hget. apply own_get_In in Hget.
  unfold Scan.top_paths_of, Scan.slice_10.
  set (sorted := Scan.Array_sort Scan.by_views
                   (map Scan.entry (Scan.Object_entries (Scan.pathCounts_of events)))).
  assert (Hsorted : In {| pv_path := Some p; pv_views := VText s |} sorted).
  { unfold sorted. apply (Array_sort_In any_tie). apply in_map_iff.
    exists (p, VText s). split; [reflexivity |]. now apply Object_entries_In. }
  destruct (Nat.le_gt_cases (List.length sorted) 10) as [Hle | Hgt].
  - right. exists s. now rewrite firstn_all2.
  - left. rewrite length_firstn. lia.
Qed.

Lemma inherited_path_gets_text_witness :
  exists r,
    Scan.stats utc [ page_view (Some "constructor") (Some "user-1") 1763200800000 ]
      (Some "site-abc-123") (Some "2025-11-15") = Stats200 r /\
    (List.length (top_paths r) = 10%nat \/
     exists s, In {| pv_path := Some "constructor"; pv_views := VText s |} (top_paths r)).
Proof.
  apply (inherited_path_gets_text utc
           [ page_view (Some "constructor") (Some "user-1") 1763200800000 ]
           (Some "site-abc-123") (Some "2025-11-15") "site-abc-123" "2025-11-15"
           "constructor" 1763164800000 1763251200000
           (page_view (Some "constructor") (Some "user-1") 1763200800000)).
  - reflexivity.
  - reflexivity.
  - reflexivity.
  - left. reflexivity.
  - unfold in_day. simpl. repeat split; lia.
  - reflexivity.
  - reflexivity.
  - discriminate.
Defined.

(* ===================================================================== *)
(** ** Where the two handlers always agree *)
(* ===================================================================== *)

(** X20.  On every request and every collection, whatever the engine, when
    GET /stats answers with statistics, GET /stats/aggregated answers with
    statistics too, echoes the same [site_id] and [date], and reports the
    same [total_views]. *)
Theorem total_views_agree (E : Aggregate.Engine) (rt : Runtime) (db : Collection)
  (q_site q_date : option string) (scanned : StatsResult) :
  Scan.stats rt db q_site q_date = Stats200 scanned ->
  exists aggregated,
    Aggregate.stats E rt db q_site q_date = Stats200 aggregated /\
    res_site_id aggregated = res_site_id scanned /\
    res_date aggregated = res_date scanned /\
    total_views aggregated = total_views scanned.
Proof.
  unfold Scan.stats, Aggregate.stats.
  destruct (given q_site) as [site |]; [| discriminate].
  destruct (given q_date) as [date |]; [| discriminate].
  destruct (window rt date) as [[lo hi] |]; [| discriminate].
  intros [= <-]. eexists. split; [reflexivity |].
  unfold Aggregate.Event_aggregate, Aggregate.first_of.
  cbn [res_site_id res_date total_views Aggregate.total].
  rewrite count_or_0. repeat split.
Qed.

Lemma total_views_agree_witness :
  exists aggregated,
    Aggregate.stats Aggregate.last_seen utc readme_events
      (Some "site-abc-123") (Some "2025-11-15") = Stats200 aggregated /\
    res_site_id aggregated = res_site_id readme_result /\
    res_date aggregated = res_date readme_result /\
    total_views aggregated = total_views readme_result.
Proof.
  apply (total_views_agree Aggregate.last_seen utc readme_events
           (Some "site-abc-123") (Some "2025-11-15") readme_result).
  reflexivity.
Defined.

(** X21.  GET /stats reports zero views exactly when no event of the
    collection belongs to the site and to the window, and then it reports
    zero unique users and an empty [top_paths]. *)
Theorem scan_empty_day (rt : Runtime) (db : Collection)
  (q_site q_date : option string) (r : StatsResult) :
  Scan.stats rt db q_site q_date = Stats200 r ->
  exists site date lo hi,
    given q_site = Some site /\ given q_date = Some date /\
    window rt date = Some (lo, hi) /\
    (total_views r = 0 <-> matching_count site lo hi db = O) /\
    (total_views r = 0 -> unique_users r = 0 /\ top_paths r = []).
Proof.
  intros H. apply scan_reply in H.
  destruct H as (site & date & lo & hi & Hs & Hd & Hw & ->).
  exists site, date, lo, hi. repeat (split; [assumption |]).
  cbn [total_views unique_users top_paths]. rewrite Event_find_count.
  split; [lia |].
  intros H0. assert (Hnil : Event_find site lo hi db = []).
  { apply length_zero_iff_nil. rewrite Event_find_count. lia. }
  rewrite Hnil. split; reflexivity.
Qed.

Lemma scan_empty_day_witness :
  exists site date lo hi,
    given (Some "site-abc-123") = Some site /\ given (Some "2025-11-16") = Some date /\
    window utc date = Some (lo, hi) /\
    (total_views {| res_site_id := "site-abc-123"; res_date := "2025-11-16";
                    total_views := 0; unique_users := 0; top_paths := [] |} = 0
     <-> matching_count site lo hi readme_events = O) /\
    (total_views {| res_site_id := "site-abc-123"; res_date := "2025-11-16";
                    total_views := 0; unique_users := 0; top_paths := [] |} = 0 ->
     unique_users {| res_site_id := "site-abc-123"; res_date := "2025-11-16";
                     total_views := 0; unique_users := 0; top_paths := [] |} = 0 /\
     top_paths {| res_site_id := "site-abc-123"; res_date := "2025-11-16";
                  total_views := 0; unique_users := 0; top_paths := [] |} = []).
Proof.
  apply (scan_empty_day utc readme_events (Some "site-abc-123") (Some "2025-11-16")).
  reflexivity.
Defined.

(* ===================================================================== *)
(** ** Where the two strategies agree *)
(* ===================================================================== *)












Example about_then_404_named :
  all_users about_then_404 /\ named_paths about_then_404 /\
  ~ ordinary_paths about_then_404.
Proof. split; [reflexivity |]. split; [reflexivity | discriminate]. Qed.
